(** * Cohort statistics: a shallow embedding of [asn1_function_sheet.py]

    The module under study works on pandas tables.  The embedding fixes
    the part of pandas (2.x, object-dtype strings) and numpy the source
    relies on:

    - numbers are IEEE binary64 values, Rocq's primitive floats, whose NaN
      is the missing marker of a numeric column; an integer column is a
      float64 column without NaN, and the [int] 0 that [effectSizer]
      returns is the float 0.0;
    - a table is the list of its named columns, each a [float64] or an
      [object] array; row labels are not modelled, rows are positions;
    - a sum of floats is taken left to right;
    - Python dictionaries are insertion-ordered association lists;
    - code that may raise returns a [result]; a table is passed by
      reference, and since [effectSizer] assigns to its argument every
      table operation runs in a state-and-error monad over the caller's
      table;
    - [str] of a number is a parameter, [repr_float]. *)

From Stdlib Require Import List String Ascii Bool Arith ZArith Lia Permutation.
From Stdlib Require Import Floats.
Import ListNotations.

Local Open Scope string_scope.
Local Open Scope list_scope.

(** ** Binary64 helpers *)

Module F.

(** Number of elements of a sample as a float ([count] in pandas' nanops). *)
Definition of_nat (n : nat) : float := PrimFloat.of_uint63 (Uint63.of_Z (Z.of_nat n)).

Definition two : float := 2%float.

(** Python's [x == 0]. *)
Definition is_zero (x : float) : bool := PrimFloat.eqb x 0%float.

(** Equality of the hash tables behind [unique] and of [Series.equals]:
    numeric equality, with all NaNs alike. *)
Definition same (x y : float) : bool :=
  PrimFloat.eqb x y || (PrimFloat.is_nan x && PrimFloat.is_nan y).

(** [x ** 2] on a float. *)
Definition sq (x : float) : float := PrimFloat.mul x x.

(** Two specification-level floats that are equal up to the sign of a
    zero (so that [==] holds between them unless they are NaN). *)
Definition zsim (x y : spec_float) : Prop :=
  x = y \/ exists s s', x = S754_zero s /\ y = S754_zero s'.

End F.

(** ** Reductions of a float64 Series (pandas [nanops], [skipna=True]) *)

Definition dropna (xs : list float) : list float :=
  filter (fun x => negb (PrimFloat.is_nan x)) xs.

Definition fsum (xs : list float) : float :=
  fold_left PrimFloat.add xs 0%float.

(** [Series.mean]: sum of the non-missing values over their count; NaN for
    an empty sample (0.0 / 0). *)
Definition mean (xs : list float) : float :=
  let v := dropna xs in
  PrimFloat.div (fsum v) (F.of_nat (List.length v)).

(** Sum of squared deviations from the mean, as [nanvar] computes it. *)
Definition sum_sq_dev (v : list float) : float :=
  let avg := PrimFloat.div (fsum v) (F.of_nat (List.length v)) in
  fsum (map (fun x => F.sq (PrimFloat.sub avg x)) v).

(** [Series.var] with the default [ddof=1]: NaN when [count <= ddof]. *)
Definition var (xs : list float) : float :=
  let v := dropna xs in
  if Nat.leb (List.length v) 1 then PrimFloat.nan
  else PrimFloat.div (sum_sq_dev v) (F.of_nat (List.length v - 1)).

(** [Series.std]: the sample standard deviation. *)
Definition std (xs : list float) : float := PrimFloat.sqrt (var xs).

Definition fmin (a b : float) : float := if PrimFloat.ltb b a then b else a.
Definition fmax (a b : float) : float := if PrimFloat.ltb a b then b else a.

(** [Series.min] / [Series.max]: NaN on an all-missing sample. *)
Definition smin (xs : list float) : float :=
  match dropna xs with
  | [] => PrimFloat.nan
  | x :: v => fold_left fmin v x
  end.

Definition smax (xs : list float) : float :=
  match dropna xs with
  | [] => PrimFloat.nan
  | x :: v => fold_left fmax v x
  end.

Fixpoint insert_sorted (x : float) (l : list float) : list float :=
  match l with
  | [] => [x]
  | y :: l' => if PrimFloat.leb x y then x :: l else y :: insert_sorted x l'
  end.

Definition sort_floats (l : list float) : list float :=
  fold_right insert_sorted [] l.

(** [Series.median]: middle value of the sorted non-missing values, the
    mean of the two middle ones for an even count, NaN when there is none. *)
Definition median (xs : list float) : float :=
  let v := sort_floats (dropna xs) in
  let n := List.length v in
  if Nat.eqb n 0 then PrimFloat.nan
  else if Nat.even n
       then PrimFloat.div
              (PrimFloat.add (nth (n / 2 - 1) v PrimFloat.nan) (nth (n / 2) v PrimFloat.nan))
              F.two
       else nth (n / 2) v PrimFloat.nan.

(** ** [cohenEffectSize] (source lines 60-74) *)

Definition pooled_std (group1 group2 : list float) : float :=
  PrimFloat.sqrt
    (PrimFloat.div (PrimFloat.add (F.sq (std group1)) (F.sq (std group2))) F.two).

Definition cohenEffectSize (group1 group2 : list float) : float :=
  let group1 := dropna group1 in
  let group2 := dropna group2 in
  if (Nat.eqb (List.length group1) 0 || Nat.eqb (List.length group2) 0)%bool then PrimFloat.nan
  else
    let mean_diff := PrimFloat.sub (mean group1) (mean group2) in
    let pooled_std := pooled_std group1 group2 in
    if F.is_zero pooled_std then 0%float
    else PrimFloat.div mean_diff pooled_std.


(** ** Cells, columns and tables *)

(** A cell of a table: a number (NaN is the missing marker of a numeric
    column and may also sit in an object column), a string, or [None]. *)
Inductive value :=
| VNum (f : float)
| VStr (s : string)
| VNone.

(** A pandas Series without its index: a [float64] array or an [object]
    array. *)
Inductive column :=
| Float64 (data : list float)
| Object (data : list value).

(** A DataFrame: its columns in order, by name. *)
Definition DataFrame := list (string * column).

Definition cells (c : column) : list value :=
  match c with
  | Float64 l => map VNum l
  | Object l => l
  end.

Definition isna (v : value) : bool :=
  match v with
  | VNum f => PrimFloat.is_nan f
  | VStr _ => false
  | VNone => true
  end.

(** [a == b] on two scalars: false as soon as one side is missing. *)
Definition value_eq (a b : value) : bool :=
  match a, b with
  | VNum x, VNum y => PrimFloat.eqb x y
  | VStr s, VStr t => String.eqb s t
  | _, _ => false
  end.

(** Key equality of the hash table behind [unique] and [value_counts]. *)
Definition value_same (a b : value) : bool :=
  match a, b with
  | VNum x, VNum y => F.same x y
  | VStr s, VStr t => String.eqb s t
  | VNone, VNone => true
  | _, _ => false
  end.

(** ** Exceptions *)

Inductive exn :=
| KeyError (key : string)
  (** [ValueError] of [effectSizer]; its message interpolates the column
      name and the array of distinct values found. *)
| ValueError (col : string) (found : list value)
| TypeError
| AttributeError.

Inductive result (A : Type) :=
| Ok (a : A)
| Raise (e : exn).
Arguments Ok {A} a.
Arguments Raise {A} e.

Definition rbind {A B} (r : result A) (k : A -> result B) : result B :=
  match r with
  | Ok a => k a
  | Raise e => Raise e
  end.

Declare Scope result_scope.
Delimit Scope result_scope with result.
Notation "x <~ c1 ;; c2" := (rbind c1 (fun x => c2))
  (at level 61, c1 at next level, right associativity) : result_scope.

Fixpoint mapR {A B} (f : A -> result B) (l : list A) : result (list B) :=
  match l with
  | [] => Ok []
  | x :: l' => (y <~ f x ;; ys <~ mapR f l' ;; Ok (y :: ys))%result
  end.

(** ** Insertion-ordered dictionaries *)

Section Dict.
Context {K V : Type}.
Variable keqb : K -> K -> bool.

Definition dict := list (K * V).

Fixpoint dict_get (k : K) (d : dict) : option V :=
  match d with
  | [] => None
  | (k', v) :: d' => if keqb k k' then Some v else dict_get k d'
  end.

(** [d[k] = v]: an existing key keeps its place, a new one goes last. *)
Fixpoint dict_set (k : K) (v : V) (d : dict) : dict :=
  match d with
  | [] => [(k, v)]
  | (k', v') :: d' => if keqb k k' then (k, v) :: d' else (k', v') :: dict_set k v d'
  end.
End Dict.
Arguments dict : clear implicits.

Definition sdict (V : Type) := dict string V.
Definition sget {V} := @dict_get string V String.eqb.
Definition sset {V} := @dict_set string V String.eqb.

(** ** Series and DataFrame operations *)

(** Rows of [l] where the boolean mask holds. *)
Fixpoint take_mask {A} (m : list bool) (l : list A) : list A :=
  match m, l with
  | b :: m', x :: l' => if b then x :: take_mask m' l' else take_mask m' l'
  | _, _ => []
  end.

Definition column_take (m : list bool) (c : column) : column :=
  match c with
  | Float64 l => Float64 (take_mask m l)
  | Object l => Object (take_mask m l)
  end.

(** [df[mask]]. *)
Definition df_take (m : list bool) (df : DataFrame) : DataFrame :=
  map (fun nc => (fst nc, column_take m (snd nc))) df.

(** [df[name]]. *)
Definition df_getitem (name : string) (df : DataFrame) : result column :=
  match sget name df with
  | Some c => Ok c
  | None => Raise (KeyError name)
  end.

(** [series < t] and [series >= t]: a string cell cannot be ordered against
    a number, a missing cell compares false. *)
Definition cell_lt (t : float) (v : value) : result bool :=
  match v with
  | VNum x => Ok (PrimFloat.ltb x t)
  | VNone => Ok false
  | VStr _ => Raise TypeError
  end.

Definition cell_ge (t : float) (v : value) : result bool :=
  match v with
  | VNum x => Ok (PrimFloat.leb t x)
  | VNone => Ok false
  | VStr _ => Raise TypeError
  end.

Definition series_lt (c : column) (t : float) : result (list bool) := mapR (cell_lt t) (cells c).
Definition series_ge (c : column) (t : float) : result (list bool) := mapR (cell_ge t) (cells c).

(** [series == v]. *)
Definition series_eq (c : column) (v : value) : list bool :=
  map (fun x => value_eq x v) (cells c).

(** [series.unique()]: distinct values in order of first appearance; the
    missing markers are values like the others. *)
Fixpoint unique_from (seen l : list value) : list value :=
  match l with
  | [] => []
  | v :: l' =>
      if existsb (value_same v) seen then unique_from seen l'
      else v :: unique_from (v :: seen) l'
  end.

Definition unique (c : column) : list value := unique_from [] (cells c).

(** [series.dropna()]. *)
Definition column_dropna (c : column) : column :=
  match c with
  | Float64 l => Float64 (dropna l)
  | Object l => Object (filter (fun v => negb (isna v)) l)
  end.

(** Numeric view of a Series for a reduction: an object array reduces like
    numbers unless it holds a string. *)
Definition cell_numeric (v : value) : result float :=
  match v with
  | VNum x => Ok x
  | VNone => Ok PrimFloat.nan
  | VStr _ => Raise TypeError
  end.

Definition to_numeric (c : column) : result (list float) :=
  match c with
  | Float64 l => Ok l
  | Object l => mapR cell_numeric l
  end.

Definition series_mean (c : column) : result float := (xs <~ to_numeric c ;; Ok (mean xs))%result.
Definition series_std (c : column) : result float := (xs <~ to_numeric c ;; Ok (std xs))%result.
Definition series_median (c : column) : result float := (xs <~ to_numeric c ;; Ok (median xs))%result.
Definition series_min (c : column) : result float := (xs <~ to_numeric c ;; Ok (smin xs))%result.
Definition series_max (c : column) : result float := (xs <~ to_numeric c ;; Ok (smax xs))%result.

(** [series.value_counts().to_dict()]: occurrences of each non-missing
    value (keys listed in order of first appearance). *)
Definition count_same (v : value) (l : list value) : nat :=
  List.length (filter (value_same v) l).

Definition value_counts (c : column) : dict value nat :=
  let vs := filter (fun v => negb (isna v)) (cells c) in
  map (fun v => (v, count_same v vs)) (unique_from [] vs).

Definition vget {V} := @dict_get value V value_same.

(** Python's [str.strip()] on ASCII text. *)
Definition is_space (a : ascii) : bool :=
  let n := nat_of_ascii a in
  (Nat.leb 9 n && Nat.leb n 13) || (Nat.leb 28 n && Nat.leb n 32).

Fixpoint lstrip (s : string) : string :=
  match s with
  | EmptyString => EmptyString
  | String a s' => if is_space a then lstrip s' else s
  end.

Fixpoint rstrip (s : string) : string :=
  match s with
  | EmptyString => EmptyString
  | String a s' =>
      match rstrip s' with
      | EmptyString => if is_space a then EmptyString else String a EmptyString
      | r => String a r
      end
  end.

Definition strip (s : string) : string := rstrip (lstrip s).

(** [series.str.strip()]: the accessor exists on object arrays only; a cell
    that is not a string becomes NaN. *)
Definition str_strip (c : column) : result column :=
  match c with
  | Float64 _ => Raise AttributeError
  | Object l =>
      Ok (Object (map (fun v => match v with VStr s => VStr (strip s) | _ => VNum PrimFloat.nan end) l))
  end.

(** ** The caller's table as state

    A table is passed by reference: an operation runs against the caller's
    table and may raise.  [getitem], [getrows] and [columns_of] read the
    table, [setitem] is the statement [df[name] = series]. *)

Definition M (A : Type) : Type := DataFrame -> result A * DataFrame.

Definition ret {A} (a : A) : M A := fun df => (Ok a, df).

Definition bind {A B} (m : M A) (k : A -> M B) : M B :=
  fun df =>
    match m df with
    | (Ok a, df') => k a df'
    | (Raise e, df') => (Raise e, df')
    end.

Definition raise {A} (e : exn) : M A := fun df => (Raise e, df).
Definition lift {A} (r : result A) : M A := fun df => (r, df).

Definition getitem (name : string) : M column := fun df => (df_getitem name df, df).
Definition getrows (mask : list bool) : M DataFrame := fun df => (Ok (df_take mask df), df).
Definition columns_of : M (list string) := fun df => (Ok (map fst df), df).
Definition setitem (name : string) (c : column) : M unit := fun df => (Ok tt, sset name c df).

Declare Scope table_scope.
Delimit Scope table_scope with table.
Notation "x <- c1 ;; c2" := (bind c1 (fun x => c2))
  (at level 61, c1 at next level, right associativity) : table_scope.
Notation "c1 ;;; c2" := (bind c1 (fun _ => c2))
  (at level 61, right associativity) : table_scope.

Fixpoint foldM {A B} (f : A -> B -> M A) (l : list B) (a : A) : M A :=
  match l with
  | [] => ret a
  | b :: l' => bind (f a b) (foldM f l')
  end.

Fixpoint foldR {A B} (f : A -> B -> result A) (l : list B) (a : A) : result A :=
  match l with
  | [] => Ok a
  | b :: l' => rbind (f a b) (foldR f l')
  end.

(** ** [age_splitter] (source lines 6-22) *)

Definition age_splitter (col_name : string) (age_threshold : float) : M (DataFrame * DataFrame) :=
  (s <- getitem col_name ;;
   below <- lift (series_lt s age_threshold) ;;
   df_below <- getrows below ;;
   s' <- getitem col_name ;;
   above_equal <- lift (series_ge s' age_threshold) ;;
   df_above_equal <- getrows above_equal ;;
   ret (df_below, df_above_equal))%table.

(** ** [CohortMetric] (source lines 119-151) *)

(** What a statistics slot may hold: the [None] placeholder, a plain number,
    a pandas Series (the only one of these with an [equals] method), or one
    of the two nested dictionaries stored by [cohortCompare]. *)
Inductive pyval :=
| PNone
| PFloat (f : float)
| PSeries (data : list float)
| PNumericStats (d : sdict (sdict float))
| PCounts (d : sdict (dict value nat)).

Record CohortMetric := mkCohortMetric {
  cohort_name : string;
  statistics : sdict pyval
}.

Module Metric.

Definition init (cohort_name : string) : CohortMetric :=
  {| cohort_name := cohort_name;
     statistics := [("mean", PNone); ("median", PNone); ("std", PNone);
                    ("min", PNone); ("max", PNone)] |}.

(** [self.statistics[key] = v]. *)
Definition set_statistic (key : string) (v : pyval) (self : CohortMetric) : CohortMetric :=
  {| cohort_name := cohort_name self; statistics := sset key v (statistics self) |}.

Definition setMean := set_statistic "mean".
Definition setMedian := set_statistic "median".
Definition setStd := set_statistic "std".
Definition setMin := set_statistic "min".
Definition setMax := set_statistic "max".

(** [Series.equals]: same length and, position by position, equal values
    or NaN on both sides; false against anything that is not a Series. *)
Fixpoint data_equals (a b : list float) : bool :=
  match a, b with
  | [], [] => true
  | x :: a', y :: b' => F.same x y && data_equals a' b'
  | _, _ => false
  end.

Definition series_equals (a : list float) (other : pyval) : bool :=
  match other with
  | PSeries b => data_equals a b
  | _ => false
  end.

(** [self.statistics[stat].equals(other.statistics[stat])]: the attribute
    is looked up on the left value first, then the right value is
    fetched. *)
Definition stat_equals (v : pyval) (stat : string) (other : CohortMetric) : result bool :=
  match v with
  | PSeries a =>
      match sget stat (statistics other) with
      | Some w => Ok (series_equals a w)
      | None => Raise (KeyError stat)
      end
  | _ => Raise AttributeError
  end.

Fixpoint compare_loop (items : sdict pyval) (other : CohortMetric) : result bool :=
  match items with
  | [] => Ok true
  | (stat, v) :: items' =>
      (eq <~ stat_equals v stat other ;;
       if negb eq then Ok false else compare_loop items' other)%result
  end.

Definition compare_to (self other : CohortMetric) : result bool :=
  compare_loop (statistics self) other.

End Metric.

(** ** Column classification *)

(** [name in names]. *)
Definition mem (name : string) (names : list string) : bool :=
  existsb (String.eqb name) names.

Definition is_float64 (c : column) : bool :=
  match c with
  | Float64 _ => true
  | Object _ => false
  end.

(** Names of the numeric columns, in table order. *)
Definition numeric_names (df : DataFrame) : list string :=
  map fst (filter (fun nc => is_float64 (snd nc)) df).

(** [[col for col in columns if col not in numeric_cols]]. *)
Definition not_in (numeric_cols columns : list string) : list string :=
  filter (fun col => negb (mem col numeric_cols)) columns.

(** ** Operations that print numbers *)

Section Pandas.

(** Python's [str] of a number that is not NaN. *)
Variable repr_float : float -> string.

Definition str_value (v : value) : string :=
  match v with
  | VNum f => if PrimFloat.is_nan f then "nan" else repr_float f
  | VStr s => s
  | VNone => "None"
  end.

(** [series.astype(str)]: every cell becomes its text, the missing
    markers included. *)
Definition astype_str (c : column) : column :=
  Object (map (fun v => VStr (str_value v)) (cells c)).

(** *** [effectSizer] (source lines 24-57) *)

(** [df[df[cat_col] == v][num_col]]. *)
Definition group_of (cat_col : string) (v : value) (num_col : string) : M column :=
  (s <- getitem cat_col ;;
   d <- getrows (series_eq s v) ;;
   lift (df_getitem num_col d))%table.

Definition effectSizer (num_col cat_col : string) : M float :=
  (c <- getitem cat_col ;;
   cleaned <- lift (str_strip (astype_str c)) ;;
   setitem cat_col cleaned ;;;
   c' <- getitem cat_col ;;
   let values := unique (column_dropna c') in
   if negb (Nat.eqb (List.length values) 2) then raise (ValueError cat_col values)
   else
     g1 <- group_of cat_col (nth 0 values VNone) num_col ;;
     g2 <- group_of cat_col (nth 1 values VNone) num_col ;;
     mean1 <- lift (series_mean g1) ;;
     mean2 <- lift (series_mean g2) ;;
     let mean_diff := PrimFloat.sub mean1 mean2 in
     std1 <- lift (series_std g1) ;;
     std2 <- lift (series_std g2) ;;
     let pooled_std :=
       PrimFloat.sqrt (PrimFloat.div (PrimFloat.add (F.sq std1) (F.sq std2)) F.two) in
     if F.is_zero pooled_std || PrimFloat.is_nan pooled_std then ret 0%float
     else ret (PrimFloat.div mean_diff pooled_std))%table.

(** *** [cohortCompare] (source lines 77-117) *)

Definition default_statistics : list string := ["mean"; "median"; "std"; "min"; "max"].

(** [df.select_dtypes(include='number').columns]. *)
Definition select_dtypes_number : M (list string) :=
  fun df => (Ok (numeric_names df), df).

(** One optional entry of the per-column dictionary. *)
Definition stat_entry (stats : list string) (name : string) (f : column -> result float)
           (series : column) (d : sdict float) : result (sdict float) :=
  if mem name stats then (x <~ f series ;; Ok (sset name x d))%result else Ok d.

Definition series_stats (stats : list string) (series : column) : result (sdict float) :=
  (d <~ stat_entry stats "mean" series_mean series [] ;;
   d <~ stat_entry stats "median" series_median series d ;;
   d <~ stat_entry stats "std" series_std series d ;;
   d <~ stat_entry stats "min" series_min series d ;;
   stat_entry stats "max" series_max series d)%result.

Definition numeric_stats (stats numeric_cols : list string) (cohort_df : DataFrame)
  : result (sdict (sdict float)) :=
  foldR (fun stats_dict num_col =>
           (series <~ df_getitem num_col cohort_df ;;
            d <~ series_stats stats series ;;
            Ok (sset num_col d stats_dict))%result)
        numeric_cols [].

Definition categorical_counts (categorical_cols : list string) (cohort_df : DataFrame)
  : result (sdict (dict value nat)) :=
  foldR (fun counts cat_col =>
           (series <~ df_getitem cat_col cohort_df ;;
            Ok (sset cat_col (value_counts series) counts))%result)
        categorical_cols [].

Definition label (cohort_col : string) (cohort_value : value) : string :=
  cohort_col ++ "=" ++ str_value cohort_value.

(** The body of the inner loop, on the cohort's rows. *)
Definition cohort_metric (stats numeric_cols categorical_cols : list string)
           (cohort_col : string) (cohort_value : value) (cohort_df : DataFrame)
  : result CohortMetric :=
  (let metric := Metric.init (label cohort_col cohort_value) in
   stats_dict <~ numeric_stats stats numeric_cols cohort_df ;;
   let metric := Metric.set_statistic "numeric_stats" (PNumericStats stats_dict) metric in
   counts <~ categorical_counts categorical_cols cohort_df ;;
   let metric := Metric.set_statistic "counts" (PCounts counts) metric in
   Ok metric)%result.

Definition cohort_step (stats numeric_cols categorical_cols : list string) (cohort_col : string)
           (results : sdict CohortMetric) (cohort_value : value) : M (sdict CohortMetric) :=
  (s <- getitem cohort_col ;;
   cohort_df <- getrows (series_eq s cohort_value) ;;
   metric <- lift (cohort_metric stats numeric_cols categorical_cols
                                 cohort_col cohort_value cohort_df) ;;
   ret (sset (label cohort_col cohort_value) metric results))%table.

(** The body of the outer loop: one grouping column. *)
Definition cohort_column (stats numeric_cols categorical_cols : list string)
           (results : sdict CohortMetric) (cohort_col : string) : M (sdict CohortMetric) :=
  (s <- getitem cohort_col ;;
   foldM (cohort_step stats numeric_cols categorical_cols cohort_col) (unique s) results)%table.

Definition cohortCompare (cohorts stats : list string) : M (sdict CohortMetric) :=
  (numeric_cols <- select_dtypes_number ;;
   columns <- columns_of ;;
   let categorical_cols := not_in numeric_cols columns in
   foldM (cohort_column stats numeric_cols categorical_cols) cohorts [])%table.

End Pandas.

(** ** The example tables of the specification *)

Definition example_table : DataFrame :=
  [("group", Object [VStr "x"; VStr "x"; VStr "x"; VStr "y"; VStr "y"; VStr "y"]);
   ("val", Float64 [1; 2; 3; 4; 5; 6]%float)].

(** A grouping column with a missing cell, and a category column with a
    padded value and a missing cell. *)
Definition table_with_missing : DataFrame :=
  [("group", Object [VStr "x"; VNone; VStr "x"]);
   ("val", Float64 [1; 2; 3]%float)].

Definition table_padded : DataFrame :=
  [("cat", Object [VStr " a"; VStr "b"; VStr " a"; VStr "b"]);
   ("val", Float64 [1; 2; 3; 4]%float)].

Definition table_two_and_missing : DataFrame :=
  [("cat", Object [VStr "a"; VStr "a"; VStr "b"; VStr "b"; VNone; VNone]);
   ("val", Float64 [1; 2; 3; 4; 5; 6]%float)].

Definition table_one_and_missing : DataFrame :=
  [("cat", Object [VStr "a"; VStr "a"; VNone; VNone]);
   ("val", Float64 [1; 2; 3; 4]%float)].

Definition table_one_value : DataFrame :=
  [("cat", Object [VStr "a"; VStr "a"; VStr "a"]); ("val", Float64 [1; 2; 3]%float)].

Definition table_three_values : DataFrame :=
  [("cat", Object [VStr "a"; VStr "b"; VStr "c"]); ("val", Float64 [1; 2; 3]%float)].

Definition table_counts : DataFrame :=
  [("g", Object [VStr "k"; VStr "k"; VStr "k"]);
   ("cat", Object [VStr "a"; VStr "a"; VStr "b"])].

Definition table_ages : DataFrame :=
  [("name", Object [VStr "p"; VStr "q"; VStr "r"; VStr "s"]);
   ("age", Float64 [30; nan; 12; 18]%float)].

(** A number printer for the examples, whose tables never print a number. *)
Definition no_repr (_ : float) : string := "".

(** ** Rows of a table *)

Definition nrows (df : DataFrame) : nat :=
  match df with
  | [] => 0
  | (_, c) :: _ => List.length (cells c)
  end.

(** Every column has the table's number of rows. *)
Definition aligned (df : DataFrame) : bool :=
  forallb (fun nc => Nat.eqb (List.length (cells (snd nc))) (nrows df)) df.

Fixpoint zip_cons {A} (xs : list A) (rs : list (list A)) : list (list A) :=
  match xs, rs with
  | x :: xs', r :: rs' => (x :: r) :: zip_cons xs' rs'
  | _, _ => []
  end.

(** The rows of a table, each with its cells in column order. *)
Fixpoint rows (df : DataFrame) : list (list value) :=
  match df with
  | [] => []
  | (_, c) :: df' =>
      match df' with
      | [] => map (fun v => [v]) (cells c)
      | _ :: _ => zip_cons (cells c) (rows df')
      end
  end.

(** The cell of a row under the column called [name]. *)
Fixpoint cell_at (name : string) (df : DataFrame) (r : list value) : option value :=
  match df, r with
  | (n, _) :: df', v :: r' => if String.eqb name n then Some v else cell_at name df' r'
  | _, _ => None
  end.

Definition cell_below (t : float) (o : option value) : bool :=
  match o with
  | Some (VNum x) => PrimFloat.ltb x t
  | _ => false
  end.

Definition cell_above_equal (t : float) (o : option value) : bool :=
  match o with
  | Some (VNum x) => PrimFloat.leb t x
  | _ => false
  end.

Definition cell_present (o : option value) : bool :=
  match o with
  | Some v => negb (isna v)
  | None => false
  end.

(** A table operation that leaves the caller's table as it found it. *)
Definition readonly {A} (m : M A) : Prop := forall df, snd (m df) = df.

(** Every column of the table has [n] cells. *)
Definition columns_have (n : nat) (df : DataFrame) : Prop :=
  Forall (fun nc => List.length (cells (snd nc)) = n) df.

(** The column [effectSizer] stores back: every cell as stripped text. *)
Definition cleaned (repr_float : float -> string) (c : column) : column :=
  Object (map (fun v => VStr (strip (str_value repr_float v))) (cells c)).

(** A metric built outside [cohortCompare]: constructed, then each of the
    five slots set to a Series. *)
Definition five_slot (name : string) (mean_ median_ std_ min_ max_ : list float) : CohortMetric :=
  Metric.setMax (PSeries max_)
    (Metric.setMin (PSeries min_)
       (Metric.setStd (PSeries std_)
          (Metric.setMedian (PSeries median_)
             (Metric.setMean (PSeries mean_) (Metric.init name))))).


(** Names of the categorical columns: those that are not numeric. *)
Definition categorical_names (df : DataFrame) : list string :=
  not_in (numeric_names df) (map fst df).

(** The statistics mapping of a metric that [cohortCompare] has filled. *)
Definition batch_statistics (ns : sdict (sdict float)) (cnt : sdict (dict value nat))
  : sdict pyval :=
  [("mean", PNone); ("median", PNone); ("std", PNone); ("min", PNone); ("max", PNone);
   ("numeric_stats", PNumericStats ns); ("counts", PCounts cnt)].

(** The keys of a returned dictionary (none when the call raised). *)
Definition result_keys {V} (r : result (sdict V)) : list string :=
  match r with
  | Ok d => map fst d
  | Raise _ => []
  end.

Definition table_numeric_group : DataFrame :=
  [("g", Float64 [nan; nan]%float); ("val", Float64 [1; 2]%float)].

(** [results[lbl].statistics["numeric_stats"][col][stat]]. *)
Definition numeric_stat (results : sdict CohortMetric) (lbl col stat : string) : option float :=
  match sget lbl results with
  | Some m =>
      match sget "numeric_stats" (statistics m) with
      | Some (PNumericStats ns) =>
          match sget col ns with
          | Some d => sget stat d
          | None => None
          end
      | _ => None
      end
  | None => None
  end.

(** [results[lbl].statistics["counts"][col][v]]. *)
Definition category_count (results : sdict CohortMetric) (lbl col : string) (v : value)
  : option nat :=
  match sget lbl results with
  | Some m =>
      match sget "counts" (statistics m) with
      | Some (PCounts cnt) =>
          match sget col cnt with
          | Some d => vget v d
          | None => None
          end
      | _ => None
      end
  | None => None
  end.

(** An occurrence count as a dictionary entry: values that do not occur
    have no entry. *)
Definition occurrences (n : nat) : option nat :=
  if Nat.eqb n 0 then None else Some n.

Definition present (l : list value) : list value := filter (fun v => negb (isna v)) l.

(** The per-column dictionary holds exactly the requested statistics of
    the sample [xs]. *)
Definition holds_statistics (stats : list string) (xs : list float) (d : sdict float) : Prop :=
  map fst d = filter (fun s => mem s stats) default_statistics
  /\ (mem "mean" stats = true -> sget "mean" d = Some (mean xs))
  /\ (mem "median" stats = true -> sget "median" d = Some (median xs))
  /\ (mem "std" stats = true -> sget "std" d = Some (std xs))
  /\ (mem "min" stats = true -> sget "min" d = Some (smin xs))
  /\ (mem "max" stats = true -> sget "max" d = Some (smax xs)).

(** The cohorts in the order [cohortCompare] processes them: for each
    grouping column in turn, its distinct values. *)
Definition cohort_pairs (df : DataFrame) (cohorts : list string) : list (string * value) :=
  flat_map (fun c => match sget c df with
                     | Some col => map (pair c) (unique col)
                     | None => []
                     end) cohorts.

(** Two grouping columns whose labels collide: column "a" with the value
    "b=c" and column "a=b" with the value "c". *)
Definition table_collision : DataFrame :=
  [("a", Object [VStr "b=c"; VStr "b=c"]); ("a=b", Object [VStr "c"; VStr "d"])].

(** ** [CohortMetric.__str__] (source lines 146-151) *)

Definition nl : string := String (ascii_of_nat 10) EmptyString.
Definition tab : string := String (ascii_of_nat 9) EmptyString.

(** One turn of the loop: the key, then the value on its own line, then a
    blank line. *)
Definition stat_block (stat text : string) : string :=
  (tab ++ stat ++ ":" ++ nl ++ text ++ nl ++ nl)%string.

Section Rendering.

(** Python's [str] of a stored value other than [None] (a number, a
    Series, a dictionary). *)
Variable str_data : pyval -> string.

Definition str_pyval (v : pyval) : string :=
  match v with
  | PNone => "None"
  | _ => str_data v
  end.

Definition to_str (self : CohortMetric) : string :=
  fold_left (fun output_string item =>
               (output_string ++ stat_block (fst item) (str_pyval (snd item)))%string)
            (statistics self)
            (nl ++ "Cohort: " ++ cohort_name self ++ nl)%string.

End Rendering.

(** * Properties *)

(** ** Binary64 facts, from the specification of the primitive operations *)

Module FloatFacts.

Lemma is_nan_spec x : PrimFloat.is_nan x = true <-> Prim2SF x = S754_nan.
Proof.
  unfold Prim2SF. split.
  - intros ->. reflexivity.
  - destruct (PrimFloat.is_nan x); [reflexivity|].
    destruct (PrimFloat.is_zero x); [discriminate|].
    destruct (PrimFloat.is_infinity x); [discriminate|].
    destruct (Z.frexp x) as [r e].
    destruct (shr_fexp _ _ _ _ _) as [s e'].
    destruct (shr_m s); discriminate.
Qed.

Lemma not_nan_spec x : PrimFloat.is_nan x = false -> Prim2SF x <> S754_nan.
Proof. intros H E. apply is_nan_spec in E. congruence. Qed.

Lemma eqb_nan_l x y : PrimFloat.is_nan x = true -> PrimFloat.eqb x y = false.
Proof. intros H. apply is_nan_spec in H. rewrite eqb_spec, H. reflexivity. Qed.

Lemma eqb_nan_r x y : PrimFloat.is_nan y = true -> PrimFloat.eqb x y = false.
Proof.
  intros H. apply is_nan_spec in H. rewrite eqb_spec, H.
  destruct (Prim2SF x); reflexivity.
Qed.

Lemma SFcompare_refl x : x <> S754_nan -> SFcompare x x = Some Eq.
Proof.
  destruct x as [s|s| |s m e]; simpl; intros H; try congruence.
  - destruct s; reflexivity.
  - destruct s; rewrite Z.compare_refl, Pos.compare_cont_refl; reflexivity.
Qed.

Lemma SFcompare_antisym x y c :
  SFcompare x y = Some c -> SFcompare y x = Some (CompOpp c).
Proof.
  destruct x as [s|s| |s m e], y as [s'|s'| |s' m' e']; simpl; try discriminate;
    intros H; inversion H; clear H; subst;
    try (destruct s; try destruct s'; reflexivity);
    try (destruct s'; reflexivity).
  destruct s, s'; try reflexivity;
    rewrite (Z.compare_antisym e e'); destruct (e ?= e')%Z; simpl; try reflexivity;
    rewrite (Pos.compare_cont_antisym m m' Eq); reflexivity.
Qed.

Lemma SFcompare_total x y :
  x <> S754_nan -> y <> S754_nan -> exists c, SFcompare x y = Some c.
Proof.
  destruct x as [s|s| |s m e], y as [s'|s'| |s' m' e']; simpl; intros; try congruence; eauto.
Qed.

(** On numbers, [t <= x] is the negation of [x < t]. *)
Lemma leb_negb_ltb x t :
  PrimFloat.is_nan x = false -> PrimFloat.is_nan t = false ->
  PrimFloat.leb t x = negb (PrimFloat.ltb x t).
Proof.
  intros Hx Ht. rewrite leb_spec, ltb_spec. unfold SFleb, SFltb.
  destruct (SFcompare_total _ _ (not_nan_spec _ Hx) (not_nan_spec _ Ht)) as [c Hc].
  rewrite Hc, (SFcompare_antisym _ _ _ Hc). destruct c; reflexivity.
Qed.

Lemma ltb_nan_l x t : PrimFloat.is_nan x = true -> PrimFloat.ltb x t = false.
Proof. intros H. apply is_nan_spec in H. rewrite ltb_spec, H. reflexivity. Qed.

Lemma leb_nan_r x t : PrimFloat.is_nan x = true -> PrimFloat.leb t x = false.
Proof.
  intros H. apply is_nan_spec in H. rewrite leb_spec, H.
  destruct (Prim2SF t); reflexivity.
Qed.

Lemma same_refl x : F.same x x = true.
Proof.
  unfold F.same. destruct (PrimFloat.is_nan x) eqn:E.
  - apply orb_true_r.
  - rewrite eqb_spec. unfold SFeqb.
    rewrite SFcompare_refl by (apply not_nan_spec; assumption). reflexivity.
Qed.

Lemma SFadd_comm x y : SF64add x y = SF64add y x.
Proof.
  unfold SF64add, SFadd.
  destruct x as [s|s| |s m e], y as [s'|s'| |s' m' e']; try reflexivity;
    try (destruct s, s'; reflexivity).
  rewrite (Z.min_comm e e'), Z.add_comm. reflexivity.
Qed.

Lemma add_comm x y : PrimFloat.add x y = PrimFloat.add y x.
Proof. apply Prim2SF_inj. rewrite !add_spec. apply SFadd_comm. Qed.

Lemma binary_round_aux_opp s m e l :
  SFopp (binary_round_aux prec emax s m e l) = binary_round_aux prec emax (negb s) m e l.
Proof.
  unfold binary_round_aux.
  destruct (shr_fexp prec emax m e l) as [mrs' e'].
  destruct (shr_fexp prec emax _ e' loc_Exact) as [mrs'' e''].
  destruct (shr_m mrs''); try reflexivity.
  destruct (Z.leb e'' _); reflexivity.
Qed.

Lemma binary_round_opp s m e :
  SFopp (binary_round prec emax s m e) = binary_round prec emax (negb s) m e.
Proof.
  unfold binary_round. destruct (shl_align _ _ _) as [mz ez]. apply binary_round_aux_opp.
Qed.

Lemma binary_normalize_opp m e :
  F.zsim (binary_normalize prec emax (- m) e false)
       (SFopp (binary_normalize prec emax m e false)).
Proof.
  destruct m; simpl.
  - right. eauto.
  - left. rewrite binary_round_opp. reflexivity.
  - left. rewrite binary_round_opp. reflexivity.
Qed.

Lemma SFsub_antisym x y : F.zsim (SF64sub x y) (SFopp (SF64sub y x)).
Proof.
  unfold SF64sub, SFsub.
  destruct x as [s|s| |s m e], y as [s'|s'| |s' m' e'];
    try (left; reflexivity);
    try (destruct s, s'; simpl; solve [left; reflexivity | right; eauto]);
    try (destruct s; simpl; left; reflexivity);
    try (destruct s'; simpl; left; reflexivity).
  cbv zeta. rewrite (Z.min_comm e' e).
  match goal with
  | |- F.zsim (binary_normalize _ _ ?a _ _) (SFopp (binary_normalize _ _ ?b _ _)) =>
      replace a with (- b)%Z by lia
  end.
  apply binary_normalize_opp.
Qed.

Lemma SFdiv_opp_l x y : SF64div (SFopp x) y = SFopp (SF64div x y).
Proof.
  unfold SF64div, SFdiv.
  destruct x as [s|s| |s m e], y as [s'|s'| |s' m' e']; simpl; try reflexivity;
    try (destruct s, s'; reflexivity).
  destruct (SFdiv_core_binary _ _ _ _ _ _) as [[mz ez] lz].
  rewrite binary_round_aux_opp. destruct s, s'; reflexivity.
Qed.

Lemma SFdiv_zsim x x' y : F.zsim x x' -> F.zsim (SF64div x y) (SF64div x' y).
Proof.
  intros [->|(s & s' & -> & ->)]; [left; reflexivity|].
  destruct y as [t|t| |t m e]; simpl; try (left; reflexivity); right; eauto.
Qed.

Lemma zsim_eqb x y : F.zsim x y -> x <> S754_nan -> SFeqb x y = true.
Proof.
  unfold SFeqb. intros [<-|(s & s' & -> & ->)] H.
  - rewrite SFcompare_refl by assumption. reflexivity.
  - reflexivity.
Qed.

(** [(a - b) / p == - ((b - a) / p)] whenever the quotient is a number. *)
Lemma div_sub_antisym a b p :
  PrimFloat.is_nan (PrimFloat.div (PrimFloat.sub a b) p) = false ->
  PrimFloat.eqb (PrimFloat.div (PrimFloat.sub a b) p)
                (PrimFloat.opp (PrimFloat.div (PrimFloat.sub b a) p)) = true.
Proof.
  intros H. apply not_nan_spec in H.
  rewrite eqb_spec, opp_spec, !div_spec, !sub_spec.
  rewrite <- SFdiv_opp_l. apply zsim_eqb.
  - apply SFdiv_zsim, SFsub_antisym.
  - rewrite <- sub_spec, <- div_spec. assumption.
Qed.






Lemma SFeqb_zsim x y : SFeqb x y = true -> F.zsim x y /\ x <> S754_nan /\ y <> S754_nan.
Proof.
  unfold SFeqb.
  destruct x as [s|s| |s m e], y as [s'|s'| |s' m' e']; simpl; try discriminate;
    try (destruct s; discriminate); try (destruct s'; discriminate).
  - intros _. split; [right; eauto|]. split; discriminate.
  - destruct s, s'; try discriminate; intros _;
      (split; [left; reflexivity|]; split; discriminate).
  - destruct s, s'; try discriminate;
      destruct (e ?= e')%Z eqn:Ee; try discriminate;
      apply Z.compare_eq in Ee; subst e';
      destruct (Pos.compare_cont Eq m m') eqn:Em; try discriminate;
      apply Pos.compare_eq in Em; subst m'; intros _;
      (split; [left; reflexivity|]; split; discriminate).
Qed.

Lemma zsim_sym x y : F.zsim x y -> F.zsim y x.
Proof. intros [->|(s & s' & -> & ->)]; [left; reflexivity | right; eauto]. Qed.

Lemma zsim_trans x y z : F.zsim x y -> F.zsim y z -> F.zsim x z.
Proof.
  intros [->|(s & s' & -> & ->)]; [auto|].
  intros [<-|(t & t' & E & ->)]; right; eauto.
Qed.

Lemma eqb_sym x y : PrimFloat.eqb x y = true -> PrimFloat.eqb y x = true.
Proof.
  rewrite !eqb_spec. intros H. apply SFeqb_zsim in H. destruct H as (Hz & Hx & Hy).
  apply zsim_eqb; [apply zsim_sym|]; assumption.
Qed.

Lemma eqb_trans x y z :
  PrimFloat.eqb x y = true -> PrimFloat.eqb y z = true -> PrimFloat.eqb x z = true.
Proof.
  rewrite !eqb_spec. intros H1 H2.
  apply SFeqb_zsim in H1, H2. destruct H1 as (Hz1 & Hx & _), H2 as (Hz2 & _ & _).
  apply zsim_eqb; [apply (zsim_trans _ _ _ Hz1 Hz2) | assumption].
Qed.

Lemma same_sym x y : F.same x y = true -> F.same y x = true.
Proof.
  unfold F.same. intros H. apply orb_true_iff in H. apply orb_true_iff.
  destruct H as [H|H]; [left; apply eqb_sym; assumption|].
  right. apply andb_true_iff in H. destruct H as [-> ->]. reflexivity.
Qed.

Lemma same_trans x y z : F.same x y = true -> F.same y z = true -> F.same x z = true.
Proof.
  unfold F.same. intros H1 H2. apply orb_true_iff in H1, H2. apply orb_true_iff.
  destruct H1 as [H1|H1], H2 as [H2|H2].
  - left. apply (eqb_trans _ _ _ H1 H2).
  - apply andb_true_iff in H2. destruct H2 as [Hy _].
    rewrite (eqb_nan_r _ _ Hy) in H1. discriminate.
  - apply andb_true_iff in H1. destruct H1 as [_ Hy].
    rewrite (eqb_nan_l _ _ Hy) in H2. discriminate.
  - apply andb_true_iff in H1, H2. destruct H1 as [-> _], H2 as [_ ->]. right. reflexivity.
Qed.

End FloatFacts.

(** ** Reductions *)

Example mean_123 : mean [1; 2; 3]%float = 2%float.
Proof. vm_compute. reflexivity. Qed.

Example std_123 : std [1; 2; 3]%float = 1%float.
Proof. vm_compute. reflexivity. Qed.

Example median_even : median [4; 1; 3; 2]%float = 2.5%float.
Proof. vm_compute. reflexivity. Qed.

Example cohen_123_456 : cohenEffectSize [1; 2; 3]%float [4; 5; 6]%float = (-3)%float.
Proof. vm_compute. reflexivity. Qed.

Lemma dropna_idem xs : dropna (dropna xs) = dropna xs.
Proof.
  unfold dropna. induction xs as [|x xs IH]; simpl; [reflexivity|].
  destruct (PrimFloat.is_nan x) eqn:E; simpl; [assumption|].
  rewrite E. simpl. f_equal. assumption.
Qed.

Lemma mean_dropna xs : mean (dropna xs) = mean xs.
Proof. unfold mean. rewrite dropna_idem. reflexivity. Qed.

Lemma var_dropna xs : var (dropna xs) = var xs.
Proof. unfold var. rewrite dropna_idem. reflexivity. Qed.

Lemma std_dropna xs : std (dropna xs) = std xs.
Proof. unfold std. rewrite var_dropna. reflexivity. Qed.

Lemma pooled_std_dropna g1 g2 : pooled_std (dropna g1) (dropna g2) = pooled_std g1 g2.
Proof. unfold pooled_std. rewrite !std_dropna. reflexivity. Qed.

Lemma pooled_std_comm g1 g2 : pooled_std g1 g2 = pooled_std g2 g1.
Proof. unfold pooled_std. rewrite FloatFacts.add_comm. reflexivity. Qed.



(** ** [cohenEffectSize] *)

Lemma cohenEffectSize_dropna g1 g2 :
  cohenEffectSize g1 g2 = cohenEffectSize (dropna g1) (dropna g2).
Proof. unfold cohenEffectSize. rewrite !dropna_idem. reflexivity. Qed.

Lemma cohenEffectSize_empty g1 g2 :
  dropna g1 = [] \/ dropna g2 = [] -> cohenEffectSize g1 g2 = PrimFloat.nan.
Proof.
  intros H. unfold cohenEffectSize.
  destruct H as [-> | ->]; simpl; [reflexivity|].
  rewrite orb_true_r. reflexivity.
Qed.

Lemma cohenEffectSize_nonempty g1 g2 :
  dropna g1 <> [] -> dropna g2 <> [] ->
  cohenEffectSize g1 g2 =
    if F.is_zero (pooled_std g1 g2) then 0%float
    else PrimFloat.div (PrimFloat.sub (mean g1) (mean g2)) (pooled_std g1 g2).
Proof.
  intros H1 H2. unfold cohenEffectSize.
  destruct (dropna g1) as [|x l1] eqn:E1; [congruence|].
  destruct (dropna g2) as [|y l2] eqn:E2; [congruence|].
  cbn [List.length Nat.eqb orb]. rewrite <- E1, <- E2.
  rewrite pooled_std_dropna, !mean_dropna. reflexivity.
Qed.

(** C7. The two-sample effect size depends on the samples only through
    their non-missing values (each sample is filtered on its own); when
    either filtered sample is empty the result is NaN, the undefined marker,
    which is not zero and compares unequal to every float; otherwise, when
    the pooled standard deviation equals zero, the result is exactly 0.0. *)
Theorem cohenEffectSize_undefined_or_zero (group1 group2 : list float) :
  cohenEffectSize group1 group2 = cohenEffectSize (dropna group1) (dropna group2)
  /\ (dropna group1 = [] \/ dropna group2 = [] ->
      cohenEffectSize group1 group2 = PrimFloat.nan
      /\ PrimFloat.is_nan (cohenEffectSize group1 group2) = true
      /\ F.is_zero (cohenEffectSize group1 group2) = false
      /\ forall x, PrimFloat.eqb (cohenEffectSize group1 group2) x = false)
  /\ (dropna group1 <> [] -> dropna group2 <> [] ->
      F.is_zero (pooled_std group1 group2) = true ->
      cohenEffectSize group1 group2 = 0%float
      /\ PrimFloat.is_nan (cohenEffectSize group1 group2) = false).
Proof.
  split; [apply cohenEffectSize_dropna|]. split.
  - intros H. rewrite (cohenEffectSize_empty _ _ H).
    repeat split; try reflexivity.
    intros x. apply FloatFacts.eqb_nan_l. reflexivity.
  - intros H1 H2 Hz. rewrite (cohenEffectSize_nonempty _ _ H1 H2), Hz.
    split; reflexivity.
Qed.

Lemma cohenEffectSize_undefined_or_zero_witness :
  (cohenEffectSize [nan; nan]%float [1; 2]%float = PrimFloat.nan
   /\ cohenEffectSize [2; nan; 2]%float [5; 5]%float = 0%float)
  /\ cohenEffectSize [nan; nan]%float [1; 2]%float
     = cohenEffectSize (dropna [nan; nan]%float) (dropna [1; 2]%float).
Proof.
  destruct (cohenEffectSize_undefined_or_zero [nan; nan]%float [1; 2]%float)
    as (Hdrop & Hempty & _).
  destruct (cohenEffectSize_undefined_or_zero [2; nan; 2]%float [5; 5]%float)
    as (_ & _ & Hzero).
  split; [split|].
  - apply Hempty. left. reflexivity.
  - apply Hzero.
    + vm_compute. discriminate.
    + vm_compute. discriminate.
    + vm_compute. reflexivity.
  - exact Hdrop.
Defined.

(** C9. Whenever the effect size of [group1] against [group2] is defined
    (not NaN) and the pooled standard deviation is not zero, it equals, as
    a number, the negation of the effect size of [group2] against
    [group1]. *)
Theorem cohenEffectSize_antisymmetric (group1 group2 : list float) :
  PrimFloat.is_nan (cohenEffectSize group1 group2) = false ->
  F.is_zero (pooled_std group1 group2) = false ->
  PrimFloat.eqb (cohenEffectSize group1 group2)
                (PrimFloat.opp (cohenEffectSize group2 group1)) = true
  /\ PrimFloat.is_nan (cohenEffectSize group2 group1) = false.
Proof.
  intros Hdef Hp.
  destruct (dropna group1) as [|x l1] eqn:E1.
  { rewrite cohenEffectSize_empty in Hdef by (left; assumption). discriminate. }
  destruct (dropna group2) as [|y l2] eqn:E2.
  { rewrite cohenEffectSize_empty in Hdef by (right; assumption). discriminate. }
  assert (N1 : dropna group1 <> []) by congruence.
  assert (N2 : dropna group2 <> []) by congruence.
  rewrite (cohenEffectSize_nonempty _ _ N1 N2) in *.
  rewrite (cohenEffectSize_nonempty _ _ N2 N1).
  rewrite (pooled_std_comm group2 group1), Hp in *.
  pose proof (FloatFacts.div_sub_antisym _ _ _ Hdef) as E.
  split; [exact E|].
  destruct (PrimFloat.is_nan (PrimFloat.div (PrimFloat.sub (mean group2) (mean group1))
                                            (pooled_std group1 group2))) eqn:En;
    [|reflexivity].
  rewrite eqb_spec, opp_spec in E.
  apply FloatFacts.is_nan_spec in En. rewrite En in E. simpl in E.
  destruct (Prim2SF _) in E; discriminate.
Qed.

Lemma cohenEffectSize_antisymmetric_witness :
  PrimFloat.eqb (cohenEffectSize [1; 2; 3]%float [4; 5; 6; nan]%float)
                (PrimFloat.opp (cohenEffectSize [4; 5; 6; nan]%float [1; 2; 3]%float)) = true
  /\ PrimFloat.is_nan (cohenEffectSize [4; 5; 6; nan]%float [1; 2; 3]%float) = false.
Proof.
  apply (cohenEffectSize_antisymmetric [1; 2; 3]%float [4; 5; 6; nan]%float);
    vm_compute; reflexivity.
Defined.

(** ** Masks and rows *)

Lemma take_mask_nil_r {A} (m : list bool) : take_mask m (@nil A) = [].
Proof. destruct m as [|[] m]; reflexivity. Qed.

Lemma take_mask_map {A B} (f : A -> B) m (l : list A) :
  take_mask m (map f l) = map f (take_mask m l).
Proof.
  revert l. induction m as [|b m IH]; intros [|x l]; simpl; try reflexivity.
  destruct b; simpl; rewrite IH; reflexivity.
Qed.

Lemma zip_cons_nil_r {A} (xs : list A) : zip_cons xs [] = [].
Proof. destruct xs; reflexivity. Qed.

Lemma take_mask_zip_cons {A} m (xs : list A) rs :
  take_mask m (zip_cons xs rs) = zip_cons (take_mask m xs) (take_mask m rs).
Proof.
  revert xs rs. induction m as [|b m IH]; intros [|x xs] [|r rs]; simpl; try reflexivity.
  - destruct b; simpl; rewrite ?zip_cons_nil_r; reflexivity.
  - destruct b; simpl; rewrite IH; reflexivity.
Qed.

(** A mask computed row by row selects what [filter] selects. *)
Lemma take_mask_filter {A} (p : A -> bool) (l : list A) :
  take_mask (map p l) l = filter p l.
Proof.
  induction l as [|x l IH]; simpl; [reflexivity|].
  destruct (p x); rewrite IH; reflexivity.
Qed.

Lemma cells_column_take m c : cells (column_take m c) = take_mask m (cells c).
Proof. destruct c; simpl; [rewrite take_mask_map|]; reflexivity. Qed.

Lemma df_take_names m df : map fst (df_take m df) = map fst df.
Proof. unfold df_take. rewrite map_map. reflexivity. Qed.

(** [df[mask]] keeps the masked rows, in their order. *)
Lemma rows_df_take m df : rows (df_take m df) = take_mask m (rows df).
Proof.
  induction df as [|[n c] df IH]; simpl.
  - rewrite take_mask_nil_r. reflexivity.
  - destruct df as [|nc df]; simpl.
    + rewrite cells_column_take, take_mask_map. reflexivity.
    + rewrite cells_column_take, take_mask_zip_cons. simpl in IH. rewrite <- IH.
      reflexivity.
Qed.

Lemma length_zip_cons {A} (xs : list A) rs :
  List.length xs = List.length rs -> List.length (zip_cons xs rs) = List.length xs.
Proof.
  revert rs. induction xs as [|x xs IH]; intros [|r rs]; simpl; intros H; try congruence.
  f_equal. apply IH. congruence.
Qed.

Lemma length_rows n df : columns_have n df -> df <> [] -> List.length (rows df) = n.
Proof.
  induction df as [|[name c] df IH]; intros H Hne; [congruence|].
  apply Forall_cons_iff in H. destruct H as [Hc Hdf]. simpl in *.
  destruct df as [|nc df].
  - rewrite length_map. assumption.
  - rewrite length_zip_cons; [assumption|].
    rewrite Hc. symmetry. apply IH; [assumption | discriminate].
Qed.

Lemma aligned_columns_have df : aligned df = true -> columns_have (nrows df) df.
Proof.
  unfold aligned, columns_have. rewrite forallb_forall, Forall_forall.
  intros H nc Hin. apply Nat.eqb_eq. apply H. assumption.
Qed.

Lemma cell_at_zip_cons name name' c df cs rs :
  List.length cs = List.length rs ->
  map (cell_at name ((name', c) :: df)) (zip_cons cs rs) =
    if String.eqb name name' then map Some cs else map (cell_at name df) rs.
Proof.
  revert rs. induction cs as [|v cs IH]; intros [|r rs] H; simpl in *; try congruence.
  - destruct (String.eqb name name'); reflexivity.
  - specialize (IH rs ltac:(congruence)).
    destruct (String.eqb name name'); simpl; f_equal; assumption.
Qed.

(** In an aligned table the rows carry, under a column's name, the cells
    of that column. *)
Lemma cell_at_rows n name df c :
  columns_have n df -> sget name df = Some c ->
  map (cell_at name df) (rows df) = map Some (cells c).
Proof.
  unfold sget. induction df as [|[name' c'] df IH]; intros H Hget; [discriminate|].
  apply Forall_cons_iff in H. destruct H as [Hc Hdf]. simpl in Hc.
  cbn [dict_get] in Hget. cbn [rows].
  destruct df as [|nc df].
  - destruct (String.eqb name name') eqn:E; [|discriminate].
    inversion Hget; subst. rewrite map_map. simpl. rewrite E. reflexivity.
  - rewrite cell_at_zip_cons.
    + destruct (String.eqb name name'); [congruence|]. apply IH; assumption.
    + rewrite Hc. symmetry. apply length_rows; [assumption | discriminate].
Qed.

Lemma Permutation_filter_split {A} (p q s : A -> bool) (l : list A) :
  (forall x, In x l -> s x = p x || q x /\ p x && q x = false) ->
  Permutation (filter p l ++ filter q l) (filter s l).
Proof.
  induction l as [|x l IH]; intros H; simpl; [constructor|].
  destruct (H x (or_introl eq_refl)) as [Hs Hd].
  assert (IH' := IH (fun y Hy => H y (or_intror Hy))).
  rewrite Hs. destruct (p x), (q x); simpl in *; try discriminate.
  - constructor. assumption.
  - apply Permutation_sym, Permutation_cons_app, Permutation_sym. assumption.
  - assumption.
Qed.

(** ** Result and table monads *)

Lemma mapR_total {A B} (f : A -> result B) (g : A -> B) (l : list A) :
  (forall x, In x l -> f x = Ok (g x)) -> mapR f l = Ok (map g l).
Proof.
  induction l as [|x l IH]; intros H; simpl; [reflexivity|].
  rewrite (H x (or_introl eq_refl)). simpl.
  rewrite IH by (intros y Hy; apply H; right; assumption). reflexivity.
Qed.

Lemma series_lt_float xs t :
  series_lt (Float64 xs) t = Ok (map (fun x => PrimFloat.ltb x t) xs).
Proof.
  unfold series_lt. simpl.
  rewrite (mapR_total _ (fun v => match v with VNum x => PrimFloat.ltb x t | _ => false end)).
  - rewrite map_map. reflexivity.
  - intros v Hin. apply in_map_iff in Hin. destruct Hin as (x & <- & _). reflexivity.
Qed.

Lemma series_ge_float xs t :
  series_ge (Float64 xs) t = Ok (map (fun x => PrimFloat.leb t x) xs).
Proof.
  unfold series_ge. simpl.
  rewrite (mapR_total _ (fun v => match v with VNum x => PrimFloat.leb t x | _ => false end)).
  - rewrite map_map. reflexivity.
  - intros v Hin. apply in_map_iff in Hin. destruct Hin as (x & <- & _). reflexivity.
Qed.

Lemma df_getitem_some name df c : sget name df = Some c -> df_getitem name df = Ok c.
Proof. unfold df_getitem. intros ->. reflexivity. Qed.

Create HintDb readonly.

Lemma readonly_ret {A} (a : A) : readonly (ret a).
Proof. intros df. reflexivity. Qed.

Lemma readonly_raise {A} e : readonly (@raise A e).
Proof. intros df. reflexivity. Qed.

Lemma readonly_lift {A} (r : result A) : readonly (lift r).
Proof. intros df. reflexivity. Qed.

Lemma readonly_getitem name : readonly (getitem name).
Proof. intros df. reflexivity. Qed.

Lemma readonly_getrows mask : readonly (getrows mask).
Proof. intros df. reflexivity. Qed.

Lemma readonly_columns_of : readonly columns_of.
Proof. intros df. reflexivity. Qed.

Lemma readonly_select_dtypes_number : readonly select_dtypes_number.
Proof. intros df. reflexivity. Qed.

Lemma readonly_bind {A B} (m : M A) (k : A -> M B) :
  readonly m -> (forall a, readonly (k a)) -> readonly (bind m k).
Proof.
  intros Hm Hk df. unfold bind. specialize (Hm df).
  destruct (m df) as [[a|e] df']; simpl in *; subst; [apply Hk | reflexivity].
Qed.

Lemma readonly_foldM {A B} (f : A -> B -> M A) (l : list B) :
  (forall a b, readonly (f a b)) -> forall a, readonly (foldM f l a).
Proof.
  intros Hf. induction l as [|b l IH]; intros a; simpl.
  - apply readonly_ret.
  - apply readonly_bind; [apply Hf | assumption].
Qed.

#[export] Hint Resolve readonly_ret readonly_raise readonly_lift readonly_getitem
  readonly_getrows readonly_columns_of readonly_select_dtypes_number : readonly.

Ltac readonly_tac :=
  repeat first
    [ apply readonly_bind; [|intros ?]
    | apply readonly_foldM; intros ? ?
    | solve [auto with readonly] ].

(** What a read-only step followed by a continuation returns. *)
Lemma bind_readonly_fst {A B} (m : M A) (k : A -> M B) df :
  readonly m ->
  fst (bind m k df) = match fst (m df) with Ok a => fst (k a df) | Raise e => Raise e end.
Proof.
  intros Hm. unfold bind. specialize (Hm df).
  destruct (m df) as [[a|e] df']; simpl in *; subst; reflexivity.
Qed.

Lemma readonly_age_splitter col_name t : readonly (age_splitter col_name t).
Proof. unfold age_splitter. readonly_tac. Qed.

Lemma readonly_cohort_step repr stats ncols ccols cohort_col results v :
  readonly (cohort_step repr stats ncols ccols cohort_col results v).
Proof. unfold cohort_step. readonly_tac. Qed.

Lemma readonly_cohortCompare repr cohorts stats : readonly (cohortCompare repr cohorts stats).
Proof.
  unfold cohortCompare. readonly_tac.
Qed.

(** ** [age_splitter] *)

Lemma age_splitter_float df col_name t xs :
  sget col_name df = Some (Float64 xs) ->
  fst (age_splitter col_name t df) =
    Ok (df_take (map (fun x => PrimFloat.ltb x t) xs) df,
        df_take (map (fun x => PrimFloat.leb t x) xs) df).
Proof.
  intros Hget. unfold age_splitter, bind, getitem, lift, getrows, ret.
  rewrite (df_getitem_some _ _ _ Hget), series_lt_float, series_ge_float. reflexivity.
Qed.

Lemma rows_numeric n df col_name xs r :
  columns_have n df -> sget col_name df = Some (Float64 xs) -> In r (rows df) ->
  exists x, cell_at col_name df r = Some (VNum x).
Proof.
  intros Hn Hget Hin.
  apply (in_map (cell_at col_name df)) in Hin.
  rewrite (cell_at_rows _ _ _ _ Hn Hget) in Hin. simpl in Hin.
  rewrite map_map in Hin. apply in_map_iff in Hin. destruct Hin as (x & E & _). eauto.
Qed.

Lemma df_take_rows_filter n df col_name xs (p : float -> bool) (q : option value -> bool) :
  columns_have n df -> sget col_name df = Some (Float64 xs) ->
  (forall x, q (Some (VNum x)) = p x) ->
  rows (df_take (map p xs) df) = filter (fun r => q (cell_at col_name df r)) (rows df).
Proof.
  intros Hn Hget Hq. rewrite rows_df_take, <- take_mask_filter. f_equal.
  rewrite <- (map_map (cell_at col_name df) q), (cell_at_rows _ _ _ _ Hn Hget).
  simpl. rewrite !map_map. apply map_ext. intros x. rewrite Hq. reflexivity.
Qed.

(** C6. For an aligned table, a numeric column and a threshold that is a
    number, [age_splitter] returns two tables with the columns of the
    input: the first holds, in their original order, exactly the rows whose
    cell is strictly below the threshold, the second exactly those whose
    cell is at or above it; no row is in both, together they are the rows
    whose cell is not missing, and a row with a missing cell is in
    neither. *)
Theorem age_splitter_partition (df : DataFrame) (col_name : string) (t : float)
        (xs : list float) :
  aligned df = true ->
  sget col_name df = Some (Float64 xs) ->
  PrimFloat.is_nan t = false ->
  exists df_below df_above_equal,
    fst (age_splitter col_name t df) = Ok (df_below, df_above_equal)
    /\ map fst df_below = map fst df /\ map fst df_above_equal = map fst df
    /\ rows df_below = filter (fun r => cell_below t (cell_at col_name df r)) (rows df)
    /\ rows df_above_equal
       = filter (fun r => cell_above_equal t (cell_at col_name df r)) (rows df)
    /\ (forall r, In r (rows df_below) ->
        exists x, cell_at col_name df r = Some (VNum x) /\ PrimFloat.ltb x t = true)
    /\ (forall r, In r (rows df_above_equal) ->
        exists x, cell_at col_name df r = Some (VNum x) /\ PrimFloat.leb t x = true)
    /\ (forall r, In r (rows df_below) -> In r (rows df_above_equal) -> False)
    /\ Permutation (rows df_below ++ rows df_above_equal)
                   (filter (fun r => cell_present (cell_at col_name df r)) (rows df))
    /\ (forall r, cell_present (cell_at col_name df r) = false ->
        ~ In r (rows df_below) /\ ~ In r (rows df_above_equal)).
Proof.
  intros Hal Hget Ht. apply aligned_columns_have in Hal.
  exists (df_take (map (fun x => PrimFloat.ltb x t) xs) df),
         (df_take (map (fun x => PrimFloat.leb t x) xs) df).
  assert (Hb := df_take_rows_filter _ df col_name xs (fun x => PrimFloat.ltb x t)
                  (cell_below t) Hal Hget (fun x => eq_refl)).
  assert (Ha := df_take_rows_filter _ df col_name xs (fun x => PrimFloat.leb t x)
                  (cell_above_equal t) Hal Hget (fun x => eq_refl)).
  assert (Hcase : forall r, In r (rows df) ->
            cell_present (cell_at col_name df r)
            = cell_below t (cell_at col_name df r)
              || cell_above_equal t (cell_at col_name df r)
            /\ cell_below t (cell_at col_name df r)
               && cell_above_equal t (cell_at col_name df r) = false).
  { intros r Hin. destruct (rows_numeric _ _ _ _ _ Hal Hget Hin) as [x ->]. simpl.
    destruct (PrimFloat.is_nan x) eqn:Ex.
    - rewrite (FloatFacts.ltb_nan_l _ _ Ex), (FloatFacts.leb_nan_r _ _ Ex). auto.
    - rewrite (FloatFacts.leb_negb_ltb _ _ Ex Ht).
      destruct (PrimFloat.ltb x t); auto. }
  split; [apply age_splitter_float; assumption|].
  split; [apply df_take_names|]. split; [apply df_take_names|].
  split; [exact Hb|]. split; [exact Ha|].
  rewrite Hb, Ha.
  split; [|split; [|split; [|split]]].
  - intros r Hin. apply filter_In in Hin. destruct Hin as [_ Hlt].
    destruct (cell_at col_name df r) as [[x| |]|]; try discriminate. eauto.
  - intros r Hin. apply filter_In in Hin. destruct Hin as [_ Hge].
    destruct (cell_at col_name df r) as [[x| |]|]; try discriminate. eauto.
  - intros r Hin1 Hin2. apply filter_In in Hin1, Hin2.
    destruct Hin1 as [Hin H1], Hin2 as [_ H2].
    destruct (Hcase r Hin) as [_ Hd]. rewrite H1, H2 in Hd. discriminate.
  - apply Permutation_filter_split. exact Hcase.
  - intros r Hmiss. split; intros Hin; apply filter_In in Hin; destruct Hin as [Hin H1];
      destruct (Hcase r Hin) as [Hs _]; rewrite Hmiss, H1 in Hs;
      rewrite ?orb_true_r in Hs; discriminate.
Qed.

Lemma age_splitter_partition_witness :
  exists df_below df_above_equal,
    fst (age_splitter "age" 18%float table_ages) = Ok (df_below, df_above_equal)
    /\ rows df_below = [[VStr "r"; VNum 12%float]]
    /\ rows df_above_equal = [[VStr "p"; VNum 30%float]; [VStr "s"; VNum 18%float]].
Proof.
  destruct (age_splitter_partition table_ages "age" 18%float [30; nan; 12; 18]%float)
    as (b & a & E & _ & _ & Hb & Ha & _); [reflexivity | reflexivity | reflexivity |].
  exists b, a. split; [exact E|]. rewrite Hb, Ha. split; reflexivity.
Defined.

(** ** Dictionaries *)

Lemma sget_sset_same {V} k (v : V) d : sget k (sset k v d) = Some v.
Proof.
  unfold sget, sset. induction d as [|[k' v'] d IH]; simpl.
  - rewrite String.eqb_refl. reflexivity.
  - destruct (String.eqb k k') eqn:E; simpl.
    + rewrite String.eqb_refl. reflexivity.
    + rewrite E. assumption.
Qed.

Lemma sget_sset_other {V} k k' (v : V) d : k' <> k -> sget k' (sset k v d) = sget k' d.
Proof.
  intros Hne. unfold sget, sset. induction d as [|[k0 v0] d IH]; simpl.
  - apply String.eqb_neq in Hne. rewrite Hne. reflexivity.
  - destruct (String.eqb k k0) eqn:E; simpl.
    + apply String.eqb_eq in E. subst k0.
      apply String.eqb_neq in Hne. rewrite Hne. reflexivity.
    + rewrite IH. reflexivity.
Qed.

Lemma sset_keys_present {V} k (v w : V) d :
  sget k d = Some w -> map fst (sset k v d) = map fst d.
Proof.
  unfold sget, sset. induction d as [|[k' v'] d IH]; simpl; [discriminate|].
  destruct (String.eqb k k') eqn:E; simpl; intros H.
  - apply String.eqb_eq in E. subst. reflexivity.
  - rewrite IH by assumption. reflexivity.
Qed.

Lemma sset_keys_absent {V} k (v : V) d :
  sget k d = None -> map fst (sset k v d) = map fst d ++ [k].
Proof.
  unfold sget, sset. induction d as [|[k' v'] d IH]; simpl; [reflexivity|].
  destruct (String.eqb k k') eqn:E; simpl; intros H; [discriminate|].
  rewrite IH by assumption. reflexivity.
Qed.

Lemma sget_in {V} k (v : V) d : sget k d = Some v -> In (k, v) d.
Proof.
  unfold sget. induction d as [|[k' v'] d IH]; simpl; [discriminate|].
  destruct (String.eqb k k') eqn:E; intros H.
  - apply String.eqb_eq in E. inversion H; subst. left. reflexivity.
  - right. apply IH. assumption.
Qed.

Lemma sget_none_keys {V} k (d : sdict V) : sget k d = None <-> ~ In k (map fst d).
Proof.
  unfold sget. induction d as [|[k' v'] d IH]; simpl; [tauto|].
  destruct (String.eqb k k') eqn:E.
  - apply String.eqb_eq in E. subst. split; [discriminate | intros H; exfalso; auto].
  - apply String.eqb_neq in E. rewrite IH. split.
    + intros H [?|?]; [congruence | auto].
    + intros H Hin. auto.
Qed.

(** Unique keys are kept by an assignment. *)
Lemma sset_NoDup {V} k (v : V) d : NoDup (map fst d) -> NoDup (map fst (sset k v d)).
Proof.
  intros Hnd. destruct (sget k d) as [w|] eqn:E.
  - rewrite (sset_keys_present _ _ _ _ E). assumption.
  - rewrite (sset_keys_absent _ _ _ E). apply sget_none_keys in E.
    apply NoDup_app; [assumption | repeat constructor; auto | ].
    intros x Hx [<-|[]]. auto.
Qed.

(** ** Effects on the caller's table *)

Lemma str_strip_astype_str repr c : str_strip (astype_str repr c) = Ok (cleaned repr c).
Proof. unfold str_strip, astype_str, cleaned. rewrite map_map. reflexivity. Qed.

Lemma readonly_group_of cat_col v num_col : readonly (group_of cat_col v num_col).
Proof. unfold group_of. readonly_tac. Qed.

#[export] Hint Resolve readonly_group_of : readonly.

Ltac readonly_if :=
  repeat first
    [ match goal with |- readonly (if ?b then _ else _) => destruct b end
    | apply readonly_bind; [|intros ?]
    | solve [auto with readonly] ].

(** [effectSizer] leaves behind the table with the category column
    replaced by its cleaned form; it writes nothing when the column is
    absent. *)
Lemma effectSizer_state repr num_col cat_col df :
  snd (effectSizer repr num_col cat_col df) =
    match sget cat_col df with
    | Some c => sset cat_col (cleaned repr c) df
    | None => df
    end.
Proof.
  unfold effectSizer. unfold bind at 1. unfold getitem at 1, df_getitem.
  destruct (sget cat_col df) as [c|]; [|reflexivity].
  unfold bind at 1. unfold lift at 1. rewrite str_strip_astype_str.
  unfold bind at 1. unfold setitem at 1.
  match goal with |- snd (?m _) = _ => assert (R : readonly m) end.
  { readonly_if. }
  apply R.
Qed.

(** C5, as stated, fails for [effectSizer]: after the call the caller's
    table holds the stripped text of the category column, not the cells it
    held before. *)
Lemma effectSizer_overwrites_column :
  sget "cat" table_padded = Some (Object [VStr " a"; VStr "b"; VStr " a"; VStr "b"])
  /\ sget "cat" (snd (effectSizer no_repr "val" "cat" table_padded))
     = Some (Object [VStr "a"; VStr "b"; VStr "a"; VStr "b"])
  /\ sget "cat" (snd (effectSizer no_repr "val" "cat" table_one_and_missing))
     = Some (Object [VStr "a"; VStr "a"; VStr "None"; VStr "None"]).
Proof. repeat split; vm_compute; reflexivity. Qed.

(** C5 (amended). [age_splitter] and [cohortCompare] leave the caller's
    table as they found it ([cohenEffectSize] takes samples, not a table,
    and only computes a number from them).  [effectSizer] assigns to the
    category column: after the call that column holds the stripped text of
    its former cells, while the column names, their order and every other
    column are unchanged. *)
Theorem table_effects (repr_float : float -> string) :
  (forall col_name t df, snd (age_splitter col_name t df) = df)
  /\ (forall cohorts stats df, snd (cohortCompare repr_float cohorts stats df) = df)
  /\ (forall num_col cat_col df,
        map fst (snd (effectSizer repr_float num_col cat_col df)) = map fst df
        /\ (forall name, name <> cat_col ->
            sget name (snd (effectSizer repr_float num_col cat_col df)) = sget name df)
        /\ sget cat_col (snd (effectSizer repr_float num_col cat_col df))
           = option_map (cleaned repr_float) (sget cat_col df)).
Proof.
  split; [intros; apply readonly_age_splitter|].
  split; [intros; apply readonly_cohortCompare|].
  intros num_col cat_col df. rewrite effectSizer_state.
  destruct (sget cat_col df) as [c|] eqn:E; simpl.
  - split; [apply (sset_keys_present _ _ _ _ E)|].
    split; [intros name Hne; apply sget_sset_other; assumption|].
    apply sget_sset_same.
  - rewrite E. repeat split.
Qed.

Lemma table_effects_witness :
  snd (age_splitter "age" 18%float table_ages) = table_ages
  /\ snd (cohortCompare no_repr ["group"] default_statistics example_table) = example_table
  /\ sget "val" (snd (effectSizer no_repr "val" "cat" table_padded)) = sget "val" table_padded.
Proof.
  destruct (table_effects no_repr) as (Ha & Hc & He).
  split; [apply Ha|]. split; [apply Hc|].
  destruct (He "val" "cat" table_padded) as (_ & Hother & _).
  apply Hother. discriminate.
Defined.

(** ** [CohortMetric.compare_to] *)







(** ** [effectSizer] *)

Lemma sget_df_take name m df :
  sget name (df_take m df) = option_map (column_take m) (sget name df).
Proof.
  unfold sget, df_take. induction df as [|[k c] df IH]; simpl; [reflexivity|].
  destruct (String.eqb name k); [reflexivity | assumption].
Qed.

Lemma column_dropna_cleaned repr c : column_dropna (cleaned repr c) = cleaned repr c.
Proof.
  unfold cleaned, column_dropna. f_equal.
  induction (cells c) as [|v l IH]; simpl; [reflexivity|]. rewrite IH. reflexivity.
Qed.

(** The numeric column restricted to one category, as [effectSizer] reads
    it from the table it has just cleaned. *)
Lemma group_of_cleaned repr df num_col cat_col c xs v :
  sget cat_col df = Some c ->
  sget num_col df = Some (Float64 xs) ->
  num_col <> cat_col ->
  group_of cat_col v num_col (sset cat_col (cleaned repr c) df)
  = (Ok (Float64 (take_mask (series_eq (cleaned repr c) v) xs)),
     sset cat_col (cleaned repr c) df).
Proof.
  intros Hc Hx Hne. unfold group_of, bind, getitem, getrows, lift, df_getitem.
  rewrite sget_sset_same, sget_df_take, (sget_sset_other _ _ _ _ Hne), Hx. reflexivity.
Qed.

(** When the cleaned column does not have exactly two distinct values the
    call raises, naming the column and listing the values found. *)
Lemma effectSizer_ValueError repr df num_col cat_col c :
  sget cat_col df = Some c ->
  Nat.eqb (List.length (unique (cleaned repr c))) 2 = false ->
  fst (effectSizer repr num_col cat_col df)
  = Raise (ValueError cat_col (unique (cleaned repr c))).
Proof.
  intros Hc Hlen. unfold effectSizer.
  unfold bind at 1. unfold getitem at 1, df_getitem. rewrite Hc.
  unfold bind at 1. unfold lift at 1. rewrite str_strip_astype_str.
  unfold bind at 1. unfold setitem at 1.
  unfold bind at 1. unfold getitem at 1, df_getitem. rewrite sget_sset_same.
  rewrite column_dropna_cleaned, Hlen. reflexivity.
Qed.

Lemma effectSizer_two_values repr df num_col cat_col c xs v1 v2 :
  sget cat_col df = Some c ->
  sget num_col df = Some (Float64 xs) ->
  num_col <> cat_col ->
  unique (cleaned repr c) = [v1; v2] ->
  fst (effectSizer repr num_col cat_col df)
  = Ok (let g1 := take_mask (series_eq (cleaned repr c) v1) xs in
        let g2 := take_mask (series_eq (cleaned repr c) v2) xs in
        if F.is_zero (pooled_std g1 g2) || PrimFloat.is_nan (pooled_std g1 g2) then 0%float
        else PrimFloat.div (PrimFloat.sub (mean g1) (mean g2)) (pooled_std g1 g2)).
Proof.
  intros Hc Hx Hne Hu. unfold effectSizer.
  unfold bind at 1. unfold getitem at 1, df_getitem. rewrite Hc.
  unfold bind at 1. unfold lift at 1. rewrite str_strip_astype_str.
  unfold bind at 1. unfold setitem at 1.
  unfold bind at 1. unfold getitem at 1, df_getitem. rewrite sget_sset_same.
  rewrite column_dropna_cleaned, Hu. cbn [List.length Nat.eqb negb nth].
  unfold bind at 1. rewrite (group_of_cleaned _ _ _ _ _ _ v1 Hc Hx Hne).
  unfold bind at 1. rewrite (group_of_cleaned _ _ _ _ _ _ v2 Hc Hx Hne).
  unfold bind, lift, ret, series_mean, series_std, to_numeric, rbind, pooled_std.
  cbv zeta.
  match goal with |- fst ((if ?b then _ else _) _) = _ => destruct b end; reflexivity.
Qed.

(** C4 (behaviour at the failing inputs). Missing cells of the category
    column are turned into text before the distinct values are counted, so
    a column with two values and a missing cell is rejected as having
    three, and a column with one value and a missing cell is accepted as
    having two.  The examples of the claim, one value and three values,
    are rejected; the exception carries the column name and the values
    found. *)
Theorem effectSizer_counts_missing_as_value (repr_float : float -> string) :
  fst (effectSizer repr_float "val" "cat" table_two_and_missing)
    = Raise (ValueError "cat" [VStr "a"; VStr "b"; VStr "None"])
  /\ (exists d, fst (effectSizer repr_float "val" "cat" table_one_and_missing) = Ok d)
  /\ fst (effectSizer repr_float "val" "cat" table_one_value)
     = Raise (ValueError "cat" [VStr "a"])
  /\ fst (effectSizer repr_float "val" "cat" table_three_values)
     = Raise (ValueError "cat" [VStr "a"; VStr "b"; VStr "c"]).
Proof.
  split; [|split; [|split]].
  - apply (effectSizer_ValueError repr_float table_two_and_missing "val" "cat"
             (Object [VStr "a"; VStr "a"; VStr "b"; VStr "b"; VNone; VNone]));
      reflexivity.
  - eexists.
    apply (effectSizer_two_values repr_float table_one_and_missing "val" "cat"
             (Object [VStr "a"; VStr "a"; VNone; VNone]) [1; 2; 3; 4]%float
             (VStr "a") (VStr "None")); try reflexivity.
    discriminate.
  - apply (effectSizer_ValueError repr_float table_one_value "val" "cat"
             (Object [VStr "a"; VStr "a"; VStr "a"])); reflexivity.
  - apply (effectSizer_ValueError repr_float table_three_values "val" "cat"
             (Object [VStr "a"; VStr "b"; VStr "c"])); reflexivity.
Qed.



(** ** Loops over a table that is only read *)

Lemma foldM_cons_fst {A B} (f : A -> B -> M A) b l a df :
  (forall a b, readonly (f a b)) ->
  fst (foldM f (b :: l) a df) =
    match fst (f a b df) with
    | Ok a' => fst (foldM f l a' df)
    | Raise e => Raise e
    end.
Proof. intros Hf. simpl. apply bind_readonly_fst, Hf. Qed.

(** A property of the accumulator that every successful step keeps, holds
    at the end of a successful loop. *)
Lemma foldM_inv {A B} (f : A -> B -> M A) (I : A -> Prop) (l : list B) df :
  (forall a b, readonly (f a b)) ->
  (forall a b a', In b l -> I a -> fst (f a b df) = Ok a' -> I a') ->
  forall a r, I a -> fst (foldM f l a df) = Ok r -> I r.
Proof.
  intros Hf. induction l as [|b l IH]; intros Hstep a r Ha Hr.
  - simpl in Hr. inversion Hr; subst. assumption.
  - rewrite foldM_cons_fst in Hr by assumption.
    destruct (fst (f a b df)) as [a'|e] eqn:E; [|discriminate].
    apply (IH (fun a0 b0 a1 Hin => Hstep a0 b0 a1 (or_intror Hin)) a' r);
      [|assumption].
    apply (Hstep a b a'); auto. left. reflexivity.
Qed.

(** What each step establishes for its own element, and later steps keep,
    holds for every element at the end of a successful loop. *)
Lemma foldM_covers {A B} (f : A -> B -> M A) (Q : B -> A -> Prop) (l : list B) df :
  (forall a b, readonly (f a b)) ->
  (forall a b a', fst (f a b df) = Ok a' -> Q b a') ->
  (forall a b a' b', fst (f a b df) = Ok a' -> Q b' a -> Q b' a') ->
  forall a r, fst (foldM f l a df) = Ok r ->
    (forall b, In b l -> Q b r) /\ (forall b', Q b' a -> Q b' r).
Proof.
  intros Hf Hown Hkeep. induction l as [|b l IH]; intros a r Hr.
  - simpl in Hr. inversion Hr; subst. split; [intros b []|auto].
  - rewrite foldM_cons_fst in Hr by assumption.
    destruct (fst (f a b df)) as [a'|e] eqn:E; [|discriminate].
    destruct (IH a' r Hr) as [Hall Hpres]. split.
    + intros b0 [E0|Hin]; [subst b0; apply Hpres, (Hown a b a'); assumption | auto].
    + intros b' Hb'. apply Hpres. apply (Hkeep a b a' b'); assumption.
Qed.

(** ** [cohortCompare]: the loops *)

Lemma cohort_step_fst repr stats ncols ccols c results v df :
  fst (cohort_step repr stats ncols ccols c results v df) =
    match sget c df with
    | None => Raise (KeyError c)
    | Some col =>
        match cohort_metric repr stats ncols ccols c v (df_take (series_eq col v) df) with
        | Ok m => Ok (sset (label repr c v) m results)
        | Raise e => Raise e
        end
    end.
Proof.
  unfold cohort_step, bind, getitem, getrows, lift, ret, df_getitem.
  destruct (sget c df) as [col|]; [|reflexivity].
  destruct (cohort_metric _ _ _ _ _ _ _); reflexivity.
Qed.

Lemma cohort_column_fst repr stats ncols ccols results c df :
  fst (cohort_column repr stats ncols ccols results c df) =
    match sget c df with
    | None => Raise (KeyError c)
    | Some col => fst (foldM (cohort_step repr stats ncols ccols c) (unique col) results df)
    end.
Proof.
  unfold cohort_column, bind, getitem, df_getitem.
  destruct (sget c df) as [col|]; reflexivity.
Qed.

Lemma readonly_cohort_column repr stats ncols ccols results c :
  readonly (cohort_column repr stats ncols ccols results c).
Proof. unfold cohort_column. readonly_tac. Qed.

Lemma cohortCompare_fst repr cohorts stats df :
  fst (cohortCompare repr cohorts stats df) =
    fst (foldM (cohort_column repr stats (numeric_names df) (categorical_names df))
               cohorts [] df).
Proof. reflexivity. Qed.

(** Every entry of the result was produced by the loop body for some
    grouping column and some distinct value of it, on the rows where the
    column equals that value. *)
Lemma cohortCompare_entries repr cohorts stats df results :
  fst (cohortCompare repr cohorts stats df) = Ok results ->
  forall lbl m, sget lbl results = Some m ->
    exists c col v,
      In c cohorts /\ sget c df = Some col /\ In v (unique col)
      /\ lbl = label repr c v
      /\ cohort_metric repr stats (numeric_names df) (categorical_names df) c v
           (df_take (series_eq col v) df) = Ok m.
Proof.
  rewrite cohortCompare_fst.
  apply (foldM_inv _ (fun results => forall lbl m, sget lbl results = Some m -> _)).
  - intros a b. apply readonly_cohort_column.
  - intros a c a' Hc Ha. rewrite cohort_column_fst.
    destruct (sget c df) as [col|] eqn:Ecol; [|discriminate].
    apply (foldM_inv _ (fun results => forall lbl m, sget lbl results = Some m -> _)).
    + intros a0 b0. apply readonly_cohort_step.
    + intros a0 v a1 Hv Ha0. rewrite cohort_step_fst, Ecol.
      destruct (cohort_metric _ _ _ _ _ _ _) as [m0|e] eqn:Em; [|discriminate].
      intros E lbl m Hget. inversion E; subst a1; clear E.
      destruct (String.eqb lbl (label repr c v)) eqn:El.
      * apply String.eqb_eq in El. subst lbl. rewrite sget_sset_same in Hget.
        inversion Hget; subst m0. exists c, col, v. auto.
      * apply String.eqb_neq in El. rewrite sget_sset_other in Hget by assumption.
        apply Ha0. assumption.
    + exact Ha.
  - intros lbl m H. discriminate.
Qed.

(** Every distinct value of every grouping column has its label among the
    keys of the result. *)
Lemma cohortCompare_covers repr cohorts stats df results :
  fst (cohortCompare repr cohorts stats df) = Ok results ->
  forall c, In c cohorts ->
    exists col, sget c df = Some col
      /\ forall v, In v (unique col) -> exists m, sget (label repr c v) results = Some m.
Proof.
  rewrite cohortCompare_fst. intros Hr.
  pose (has := fun lbl (d : sdict CohortMetric) => exists m, sget lbl d = Some m).
  assert (Hset : forall lbl k m d, has lbl d -> has lbl (sset k m d)).
  { intros lbl k m d [m0 Hm0]. unfold has.
    destruct (String.eqb lbl k) eqn:E.
    - apply String.eqb_eq in E. subst. rewrite sget_sset_same. eauto.
    - apply String.eqb_neq in E. rewrite sget_sset_other by assumption. eauto. }
  assert (Hinner : forall c col a a',
             sget c df = Some col ->
             fst (foldM (cohort_step repr stats (numeric_names df) (categorical_names df) c)
                        (unique col) a df) = Ok a' ->
             (forall v, In v (unique col) -> has (label repr c v) a')
             /\ (forall lbl, has lbl a -> has lbl a')).
  { intros c col a a' Ecol Hf. split.
    - apply (foldM_covers (cohort_step repr stats (numeric_names df) (categorical_names df) c)
               (fun v d => has (label repr c v) d) (unique col) df
               (readonly_cohort_step repr stats _ _ c)) with (a := a); [| |exact Hf].
      + intros a0 v a1. rewrite cohort_step_fst, Ecol.
        destruct (cohort_metric _ _ _ _ _ _ _); [|discriminate].
        intros E. inversion E. unfold has. rewrite sget_sset_same. eauto.
      + intros a0 v a1 v'. rewrite cohort_step_fst, Ecol.
        destruct (cohort_metric _ _ _ _ _ _ _); [|discriminate].
        intros E. inversion E. apply Hset.
    - intros lbl Hl.
      apply (foldM_inv (cohort_step repr stats (numeric_names df) (categorical_names df) c)
               (fun d => has lbl d) (unique col) df
               (readonly_cohort_step repr stats _ _ c)) with (a := a); [|exact Hl|exact Hf].
      intros a0 v a1 _ Ha0. rewrite cohort_step_fst, Ecol.
      destruct (cohort_metric _ _ _ _ _ _ _); [|discriminate].
      intros E. inversion E. apply Hset. assumption. }
  apply (foldM_covers (cohort_column repr stats (numeric_names df) (categorical_names df))
           (fun c d => exists col, sget c df = Some col
              /\ forall v, In v (unique col) -> has (label repr c v) d)
           cohorts df (readonly_cohort_column repr stats _ _))
    with (a := @nil (string * CohortMetric)); [| |exact Hr].
  - intros a c a'. rewrite cohort_column_fst.
    destruct (sget c df) as [col|] eqn:Ecol; [|discriminate].
    intros Hf. exists col. split; [reflexivity|]. apply (Hinner c col a a' Ecol Hf).
  - intros a c a' c'. rewrite cohort_column_fst.
    destruct (sget c df) as [col|] eqn:Ecol; [|discriminate].
    intros Hf (col' & Ecol' & Hall). exists col'. split; [assumption|].
    intros v Hv. apply (Hinner c col a a' Ecol Hf). apply Hall. assumption.
Qed.

(** ** Distinct values *)

Lemma unique_from_subset seen l u : In u (unique_from seen l) -> In u l.
Proof.
  revert seen. induction l as [|v l IH]; intros seen; simpl; [auto|].
  destruct (existsb (value_same v) seen).
  - intros H. right. apply (IH seen). assumption.
  - intros [<-|H]; [left; reflexivity | right; apply (IH (v :: seen)); assumption].
Qed.

(** Every value of the list is listed among the distinct ones, up to the
    hash-table equality, unless it was seen before. *)
Lemma unique_from_covers seen l w :
  In w l ->
  existsb (value_same w) seen = true
  \/ exists u, In u (unique_from seen l) /\ value_same w u = true.
Proof.
  revert seen. induction l as [|v l IH]; intros seen; simpl; [intros []|].
  intros [->|Hin].
  - destruct (existsb (value_same w) seen) eqn:E; [left; reflexivity|].
    right. exists w. split; [left; reflexivity|].
    destruct w as [x|s|]; simpl.
    + apply FloatFacts.same_refl.
    + apply String.eqb_refl.
    + reflexivity.
  - destruct (existsb (value_same v) seen) eqn:E.
    + apply IH. assumption.
    + destruct (IH (v :: seen) Hin) as [H|(u & Hu & Hs)].
      * simpl in H. apply orb_true_iff in H. destruct H as [H|H]; [|left; assumption].
        right. exists v. split; [left; reflexivity | assumption].
      * right. exists u. split; [right; assumption | assumption].
Qed.

Lemma unique_covers col w :
  In w (cells col) -> exists u, In u (unique col) /\ value_same w u = true.
Proof.
  intros Hin. destruct (unique_from_covers [] _ _ Hin) as [H|H]; [discriminate | exact H].
Qed.

Lemma value_same_isna v u : value_same v u = true -> isna v = isna u.
Proof.
  destruct v as [x|s|], u as [y|t|]; simpl; try discriminate; try reflexivity.
  unfold F.same. intros H. apply orb_true_iff in H. destruct H as [H|H].
  - destruct (PrimFloat.is_nan x) eqn:Ex.
    + rewrite (FloatFacts.eqb_nan_l _ _ Ex) in H. discriminate.
    + destruct (PrimFloat.is_nan y) eqn:Ey; [|reflexivity].
      rewrite (FloatFacts.eqb_nan_r _ _ Ey) in H. discriminate.
  - apply andb_true_iff in H. destruct H as [-> ->]. reflexivity.
Qed.

(** Nothing equals a missing value: its cohort has no row. *)
Lemma series_eq_missing col v : isna v = true -> forallb negb (series_eq col v) = true.
Proof.
  intros Hv. unfold series_eq. apply forallb_forall. intros b Hb.
  apply in_map_iff in Hb. destruct Hb as (x & <- & _).
  destruct x as [a|s|], v as [b|t|]; simpl in *; try reflexivity; try discriminate.
  rewrite (FloatFacts.eqb_nan_r _ _ Hv). reflexivity.
Qed.

(** ** [cohortCompare]: the entries *)

Lemma cohort_metric_ok repr stats ncols ccols c v cohort_df m :
  cohort_metric repr stats ncols ccols c v cohort_df = Ok m ->
  exists ns cnt,
    numeric_stats stats ncols cohort_df = Ok ns
    /\ categorical_counts ccols cohort_df = Ok cnt
    /\ m = {| cohort_name := label repr c v; statistics := batch_statistics ns cnt |}.
Proof.
  unfold cohort_metric.
  destruct (numeric_stats stats ncols cohort_df) as [ns|e]; [|discriminate].
  destruct (categorical_counts ccols cohort_df) as [cnt|e]; [|discriminate].
  simpl. intros E. inversion E. exists ns, cnt. repeat split.
Qed.

Lemma cohortCompare_keys_NoDup repr cohorts stats df results :
  fst (cohortCompare repr cohorts stats df) = Ok results -> NoDup (map fst results).
Proof.
  rewrite cohortCompare_fst.
  apply (foldM_inv _ (fun results => NoDup (map fst results))).
  - intros a b. apply readonly_cohort_column.
  - intros a c a' _ Ha. rewrite cohort_column_fst.
    destruct (sget c df) as [col|] eqn:Ecol; [|discriminate].
    apply (foldM_inv _ (fun results => NoDup (map fst results))).
    + intros a0 b0. apply readonly_cohort_step.
    + intros a0 v a1 _ Ha0. rewrite cohort_step_fst, Ecol.
      destruct (cohort_metric _ _ _ _ _ _ _); [|discriminate].
      intros E. inversion E. apply sset_NoDup. assumption.
    + exact Ha.
  - constructor.
Qed.

(** C10. Every metric returned by [cohortCompare] holds the five
    placeholder keys, still mapped to [None], followed by the
    ["numeric_stats"] and ["counts"] entries; and it is stored under its
    own name. *)
Theorem cohortCompare_keeps_placeholders (repr_float : float -> string) (df : DataFrame)
        (cohorts stats : list string) (results : sdict CohortMetric)
        (lbl : string) (m : CohortMetric) :
  fst (cohortCompare repr_float cohorts stats df) = Ok results ->
  sget lbl results = Some m ->
  cohort_name m = lbl
  /\ sget "mean" (statistics m) = Some PNone
  /\ sget "median" (statistics m) = Some PNone
  /\ sget "std" (statistics m) = Some PNone
  /\ sget "min" (statistics m) = Some PNone
  /\ sget "max" (statistics m) = Some PNone
  /\ exists ns cnt,
       sget "numeric_stats" (statistics m) = Some (PNumericStats ns)
       /\ sget "counts" (statistics m) = Some (PCounts cnt)
       /\ statistics m =
            [("mean", PNone); ("median", PNone); ("std", PNone); ("min", PNone);
             ("max", PNone); ("numeric_stats", PNumericStats ns); ("counts", PCounts cnt)].
Proof.
  intros Hr Hget.
  destruct (cohortCompare_entries _ _ _ _ _ Hr _ _ Hget) as (c & col & v & _ & _ & _ & El & Em).
  destruct (cohort_metric_ok _ _ _ _ _ _ _ _ Em) as (ns & cnt & _ & _ & ->).
  simpl. repeat split; try (symmetry; assumption).
  exists ns, cnt. repeat split.
Qed.

Lemma cohortCompare_keeps_placeholders_witness :
  exists results m,
    fst (cohortCompare no_repr ["group"] default_statistics example_table) = Ok results
    /\ sget "group=x" results = Some m
    /\ sget "mean" (statistics m) = Some PNone
    /\ sget "max" (statistics m) = Some PNone
    /\ exists ns cnt, sget "numeric_stats" (statistics m) = Some (PNumericStats ns)
                      /\ sget "counts" (statistics m) = Some (PCounts cnt).
Proof.
  destruct (fst (cohortCompare no_repr ["group"] default_statistics example_table))
    as [results|e] eqn:Hr; [|vm_compute in Hr; discriminate].
  destruct (sget "group=x" results) as [m|] eqn:Hget;
    [|vm_compute in Hr; inversion Hr; subst results; vm_compute in Hget; discriminate].
  destruct (cohortCompare_keeps_placeholders no_repr example_table ["group"]
              default_statistics results "group=x" m Hr Hget)
    as (_ & Hmean & _ & _ & _ & Hmax & ns & cnt & Hns & Hcnt & _).
  exists results, m. split; [reflexivity|]. split; [exact Hget|].
  split; [exact Hmean|]. split; [exact Hmax|].
  exists ns, cnt. split; assumption.
Defined.

(** C1, as stated, fails: a missing cell of the grouping column is one of
    the values returned by [unique], so the result has an entry labelled
    with the missing marker ("group=None" for [None] in an object column,
    "g=nan" for NaN in a numeric one). *)
Lemma cohortCompare_labels_missing_value :
  result_keys (fst (cohortCompare no_repr ["group"] default_statistics table_with_missing))
    = ["group=x"; "group=None"]
  /\ result_keys (fst (cohortCompare no_repr ["g"] default_statistics table_numeric_group))
     = ["g=nan"].
Proof. split; vm_compute; reflexivity. Qed.

(** C1 (amended). In the result of [cohortCompare] the keys are pairwise
    different and each of them is the label of a distinct value of a
    grouping column; conversely every distinct value of every grouping
    column, the missing markers included, has its label among the keys.
    Every cell of the column is represented by one of the distinct values,
    a missing cell by a missing one; the cohort of a missing value selects
    no row. *)
Theorem cohortCompare_one_key_per_value (repr_float : float -> string) (df : DataFrame)
        (cohorts stats : list string) (results : sdict CohortMetric) :
  fst (cohortCompare repr_float cohorts stats df) = Ok results ->
  NoDup (map fst results)
  /\ (forall lbl m, sget lbl results = Some m ->
      exists c col v, In c cohorts /\ sget c df = Some col /\ In v (unique col)
                      /\ lbl = label repr_float c v)
  /\ (forall c, In c cohorts ->
      exists col, sget c df = Some col
        /\ (forall v, In v (unique col) ->
            exists m, sget (label repr_float c v) results = Some m)
        /\ (forall w, In w (cells col) ->
            exists u, In u (unique col) /\ value_same w u = true /\ isna u = isna w)
        /\ (forall v, isna v = true -> forallb negb (series_eq col v) = true)).
Proof.
  intros Hr. split; [apply (cohortCompare_keys_NoDup _ _ _ _ _ Hr)|]. split.
  - intros lbl m Hget.
    destruct (cohortCompare_entries _ _ _ _ _ Hr _ _ Hget)
      as (c & col & v & Hc & Hcol & Hv & El & _).
    exists c, col, v. auto.
  - intros c Hc.
    destruct (cohortCompare_covers _ _ _ _ _ Hr c Hc) as (col & Hcol & Hall).
    exists col. split; [assumption|]. split; [exact Hall|]. split.
    + intros w Hw. destruct (unique_covers _ _ Hw) as (u & Hu & Hs).
      exists u. split; [assumption|]. split; [assumption|].
      symmetry. apply value_same_isna. assumption.
    + intros v Hv. apply series_eq_missing. assumption.
Qed.

Lemma cohortCompare_one_key_per_value_witness :
  exists results m m',
    fst (cohortCompare no_repr ["group"] default_statistics table_with_missing) = Ok results
    /\ sget "group=x" results = Some m
    /\ sget "group=None" results = Some m'.
Proof.
  destruct (fst (cohortCompare no_repr ["group"] default_statistics table_with_missing))
    as [results|e] eqn:Hr; [|vm_compute in Hr; discriminate].
  destruct (cohortCompare_one_key_per_value no_repr table_with_missing ["group"]
              default_statistics results Hr) as (_ & _ & Hcov).
  destruct (Hcov "group" (or_introl eq_refl)) as (col & Hcol & Hall & _).
  vm_compute in Hcol. inversion Hcol; subst col; clear Hcol.
  destruct (Hall (VStr "x") (or_introl eq_refl)) as [m Hm].
  destruct (Hall VNone (or_intror (or_introl eq_refl))) as [m' Hm'].
  exists results, m, m'. split; [reflexivity|]. split; assumption.
Defined.

(** ** Value counts *)

Lemma value_same_refl v : value_same v v = true.
Proof.
  destruct v as [x|s|]; simpl;
    [apply FloatFacts.same_refl | apply String.eqb_refl | reflexivity].
Qed.

Lemma value_same_sym v u : value_same v u = true -> value_same u v = true.
Proof.
  destruct v as [x|s|], u as [y|t|]; simpl; try discriminate; try reflexivity.
  - apply FloatFacts.same_sym.
  - rewrite String.eqb_sym. auto.
Qed.

Lemma value_same_trans v u w :
  value_same v u = true -> value_same u w = true -> value_same v w = true.
Proof.
  destruct v as [x|s|], u as [y|t|], w as [z|r|]; simpl; try discriminate; try reflexivity.
  - apply FloatFacts.same_trans.
  - rewrite !String.eqb_eq. congruence.
Qed.

Lemma value_same_congr v u :
  value_same v u = true -> forall w, value_same v w = value_same u w.
Proof.
  intros H w. destruct (value_same v w) eqn:E1, (value_same u w) eqn:E2; try reflexivity.
  - rewrite (value_same_trans u v w (value_same_sym _ _ H) E1) in E2. discriminate.
  - rewrite (value_same_trans v u w H E2) in E1. discriminate.
Qed.

Lemma vget_map (f : value -> nat) w us :
  vget w (map (fun u => (u, f u)) us) = option_map f (find (value_same w) us).
Proof.
  unfold vget. induction us as [|u us IH]; simpl; [reflexivity|].
  destruct (value_same w u); [reflexivity | assumption].
Qed.

Lemma filter_none {A} (p : A -> bool) l : (forall x, In x l -> p x = false) -> filter p l = [].
Proof.
  induction l as [|x l IH]; intros H; simpl; [reflexivity|].
  rewrite (H x (or_introl eq_refl)). apply IH. intros y Hy. apply H. right. assumption.
Qed.

Lemma filter_some_length {A} (p : A -> bool) l x :
  In x l -> p x = true -> List.length (filter p l) <> 0.
Proof.
  intros Hin Hp. assert (Hf : In x (filter p l)) by (apply filter_In; auto).
  destruct (filter p l); [destruct Hf | discriminate].
Qed.

(** The dictionary of [value_counts] maps a value to the number of
    non-missing cells equal to it, and has no entry for a value that does
    not occur. *)
Lemma vget_value_counts c w :
  vget w (value_counts c) = occurrences (count_same w (present (cells c))).
Proof.
  unfold value_counts. fold (present (cells c)). set (vs := present (cells c)).
  rewrite vget_map. unfold occurrences.
  destruct (find (value_same w) (unique_from [] vs)) as [u|] eqn:Ef; simpl.
  - apply find_some in Ef. destruct Ef as [Hu Hs].
    apply unique_from_subset in Hu.
    unfold count_same. rewrite (filter_ext _ _ (value_same_congr w u Hs)).
    destruct (Nat.eqb_spec (List.length (filter (value_same u) vs)) 0) as [E|E];
      [|reflexivity].
    exfalso. revert E. apply (filter_some_length _ _ u Hu). apply value_same_refl.
  - unfold count_same. rewrite filter_none; [reflexivity|].
    intros x Hx. destruct (value_same w x) eqn:E; [|reflexivity].
    destruct (unique_from_covers [] _ _ Hx) as [H|(u & Hu & Hs)]; [discriminate|].
    pose proof (value_same_trans _ _ _ E Hs) as Ht.
    rewrite (find_none _ _ Ef u Hu) in Ht. discriminate.
Qed.

(** ** Dictionaries built by a loop *)

Lemma foldR_ext {A B} (f g : A -> B -> result A) l a :
  (forall a b, f a b = g a b) -> foldR f l a = foldR g l a.
Proof.
  intros H. revert a. induction l as [|b l IH]; intros a; simpl; [reflexivity|].
  rewrite H. destruct (g a b); simpl; [apply IH | reflexivity].
Qed.

(** A dictionary filled by [d[k] = g(k)] for the keys of a list holds
    [g(k)] under each of them and nothing else new. *)
Lemma foldR_sset {V} (g : string -> result V) l d0 d :
  foldR (fun acc k => (x <~ g k ;; Ok (sset k x acc))%result) l d0 = Ok d ->
  (forall k, In k l -> exists x, g k = Ok x /\ sget k d = Some x)
  /\ (forall k, ~ In k l -> sget k d = sget k d0).
Proof.
  revert d0. induction l as [|k l IH]; intros d0 H; simpl in H.
  - inversion H; subst. split; [intros k []|reflexivity].
  - destruct (g k) as [x|e] eqn:Eg; [|discriminate]. simpl in H.
    destruct (IH _ H) as [Hin Hout]. split.
    + intros k' [<-|Hk'].
      * destruct (in_dec string_dec k l) as [Hl|Hl].
        -- destruct (Hin k Hl) as (x' & Ex' & Hget). exists x'. split; [assumption|].
           assumption.
        -- exists x. split; [assumption|]. rewrite (Hout k Hl). apply sget_sset_same.
      * apply Hin. assumption.
    + intros k' Hk'. rewrite Hout by (intros Hl; apply Hk'; right; assumption).
      apply sget_sset_other. intros ->. apply Hk'. left. reflexivity.
Qed.

(** ** Column names *)

Lemma sget_in_keys {V} k (v : V) d : sget k d = Some v -> In k (map fst d).
Proof. intros H. apply sget_in in H. apply (in_map fst) in H. exact H. Qed.

Lemma in_sget_NoDup {V} k (v : V) d : NoDup (map fst d) -> In (k, v) d -> sget k d = Some v.
Proof.
  unfold sget. induction d as [|[k' v'] d IH]; simpl; intros Hnd Hin; [destruct Hin|].
  inversion Hnd as [|? ? Hnot Hnd']; subst.
  destruct Hin as [E|Hin].
  - inversion E; subst. rewrite String.eqb_refl. reflexivity.
  - destruct (String.eqb k k') eqn:Ek.
    + apply String.eqb_eq in Ek. subst k'. exfalso. apply Hnot.
      apply (in_map fst) in Hin. exact Hin.
    + apply IH; assumption.
Qed.

Lemma numeric_names_in name df :
  In name (numeric_names df) <-> exists xs, In (name, Float64 xs) df.
Proof.
  unfold numeric_names. rewrite in_map_iff. split.
  - intros ([n c] & E & Hin). simpl in E. subst n. apply filter_In in Hin.
    destruct Hin as [Hin Hf]. destruct c as [xs|cs]; [eauto | discriminate].
  - intros (xs & Hin). exists (name, Float64 xs). split; [reflexivity|].
    apply filter_In. split; [assumption | reflexivity].
Qed.

Lemma mem_In name names : mem name names = true <-> In name names.
Proof.
  unfold mem. rewrite existsb_exists. split.
  - intros (x & Hx & E). apply String.eqb_eq in E. subst. assumption.
  - intros H. exists name. split; [assumption | apply String.eqb_refl].
Qed.

Lemma categorical_names_in name df :
  In name (categorical_names df) <-> In name (map fst df) /\ ~ In name (numeric_names df).
Proof.
  unfold categorical_names, not_in. rewrite filter_In. split.
  - intros [Hin Hm]. split; [assumption|]. intros Hn. apply mem_In in Hn.
    rewrite Hn in Hm. discriminate.
  - intros [Hin Hn]. split; [assumption|].
    destruct (mem name (numeric_names df)) eqn:E; [|reflexivity].
    apply mem_In in E. contradiction.
Qed.

Lemma numeric_sget name df :
  NoDup (map fst df) ->
  (In name (numeric_names df) <-> exists xs, sget name df = Some (Float64 xs)).
Proof.
  intros Hnd. rewrite numeric_names_in. split; intros [xs H]; exists xs.
  - apply in_sget_NoDup; assumption.
  - apply sget_in. assumption.
Qed.

Lemma categorical_sget name df :
  NoDup (map fst df) ->
  (In name (categorical_names df) <-> exists cs, sget name df = Some (Object cs)).
Proof.
  intros Hnd. rewrite categorical_names_in. split.
  - intros [Hin Hn]. destruct (sget name df) as [[xs|cs]|] eqn:E.
    + exfalso. apply Hn. apply numeric_sget; eauto.
    + eauto.
    + apply sget_none_keys in E. contradiction.
  - intros [cs H]. split; [apply (sget_in_keys _ _ _ H)|].
    intros Hn. apply numeric_sget in Hn; [|assumption]. destruct Hn as [xs Hx]. congruence.
Qed.

(** ** [cohortCompare]: the statistics of a cohort *)

Lemma series_stats_float stats xs :
  exists d, series_stats stats (Float64 xs) = Ok d /\ holds_statistics stats xs d.
Proof.
  unfold series_stats, stat_entry, holds_statistics, default_statistics.
  cbn [filter].
  destruct (mem "mean" stats), (mem "median" stats), (mem "std" stats),
    (mem "min" stats), (mem "max" stats);
    (eexists; split; [reflexivity|]);
    repeat split; intros; try discriminate; reflexivity.
Qed.

Lemma holds_statistics_dropna stats xs d :
  holds_statistics stats xs d -> holds_statistics stats (dropna xs) d.
Proof.
  unfold holds_statistics, median, smin, smax. rewrite mean_dropna, std_dropna, dropna_idem.
  auto.
Qed.

Lemma numeric_stats_get stats ncols cohort_df ns :
  numeric_stats stats ncols cohort_df = Ok ns ->
  (forall n, In n ncols ->
     exists series d, sget n cohort_df = Some series
       /\ series_stats stats series = Ok d /\ sget n ns = Some d)
  /\ (forall n, ~ In n ncols -> sget n ns = None).
Proof.
  unfold numeric_stats.
  rewrite (foldR_ext _
             (fun acc k =>
                (x <~ (series <~ df_getitem k cohort_df ;; series_stats stats series) ;;
                 Ok (sset k x acc))%result)).
  - intros H. apply foldR_sset in H. destruct H as [Hin Hout]. split.
    + intros n Hn. destruct (Hin n Hn) as (d & Eg & Hget).
      unfold df_getitem in Eg. destruct (sget n cohort_df) as [series|]; [|discriminate].
      exists series, d. auto.
    + intros n Hn. rewrite (Hout n Hn). reflexivity.
  - intros a b. destruct (df_getitem b cohort_df) as [series|e]; [|reflexivity]. simpl.
    destruct (series_stats stats series); reflexivity.
Qed.

Lemma categorical_counts_get ccols cohort_df cnt :
  categorical_counts ccols cohort_df = Ok cnt ->
  (forall n, In n ccols ->
     exists series, sget n cohort_df = Some series /\ sget n cnt = Some (value_counts series))
  /\ (forall n, ~ In n ccols -> sget n cnt = None).
Proof.
  unfold categorical_counts.
  rewrite (foldR_ext _
             (fun acc k =>
                (x <~ (series <~ df_getitem k cohort_df ;; Ok (value_counts series)) ;;
                 Ok (sset k x acc))%result)).
  - intros H. apply foldR_sset in H. destruct H as [Hin Hout]. split.
    + intros n Hn. destruct (Hin n Hn) as (d & Eg & Hget).
      unfold df_getitem in Eg. destruct (sget n cohort_df) as [series|]; [|discriminate].
      simpl in Eg. inversion Eg; subst d. exists series. auto.
    + intros n Hn. rewrite (Hout n Hn). reflexivity.
  - intros a b. destruct (df_getitem b cohort_df) as [series|e]; reflexivity.
Qed.

(** What the loop body stores for the cohort of [v] in column [col]. *)
Lemma cohort_metric_statistics repr stats df c v col m :
  NoDup (map fst df) ->
  cohort_metric repr stats (numeric_names df) (categorical_names df) c v
    (df_take (series_eq col v) df) = Ok m ->
  exists ns cnt,
    statistics m = batch_statistics ns cnt
    /\ (forall name, sget name ns <> None <-> exists xs, sget name df = Some (Float64 xs))
    /\ (forall name xs, sget name df = Some (Float64 xs) ->
        exists d, sget name ns = Some d
          /\ holds_statistics stats (dropna (take_mask (series_eq col v) xs)) d)
    /\ (forall name, sget name cnt <> None <-> exists cs, sget name df = Some (Object cs))
    /\ (forall name cs, sget name df = Some (Object cs) ->
        exists d, sget name cnt = Some d
          /\ forall w, vget w d
                       = occurrences (count_same w (present (take_mask (series_eq col v) cs)))).
Proof.
  intros Hnd Hm.
  destruct (cohort_metric_ok _ _ _ _ _ _ _ _ Hm) as (ns & cnt & Hns & Hcnt & ->).
  apply numeric_stats_get in Hns. destruct Hns as [Hn_in Hn_out].
  apply categorical_counts_get in Hcnt. destruct Hcnt as [Hc_in Hc_out].
  exists ns, cnt. split; [reflexivity|].
  assert (Hnum : forall name xs, sget name df = Some (Float64 xs) ->
            exists d, sget name ns = Some d
              /\ holds_statistics stats (dropna (take_mask (series_eq col v) xs)) d).
  { intros name xs Hx.
    assert (Hin : In name (numeric_names df)) by (apply numeric_sget; eauto).
    destruct (Hn_in name Hin) as (series & d & Hs & Hd & Hget).
    rewrite sget_df_take, Hx in Hs. simpl in Hs. inversion Hs; subst series.
    destruct (series_stats_float stats (take_mask (series_eq col v) xs)) as (d' & Ed' & Hh).
    rewrite Ed' in Hd. inversion Hd; subst d'.
    exists d. split; [assumption | apply holds_statistics_dropna; assumption]. }
  assert (Hcat : forall name cs, sget name df = Some (Object cs) ->
            exists d, sget name cnt = Some d
              /\ forall w, vget w d
                   = occurrences (count_same w (present (take_mask (series_eq col v) cs)))).
  { intros name cs Hx.
    assert (Hin : In name (categorical_names df)) by (apply categorical_sget; eauto).
    destruct (Hc_in name Hin) as (series & Hs & Hget).
    rewrite sget_df_take, Hx in Hs. simpl in Hs. inversion Hs; subst series.
    exists (value_counts (Object (take_mask (series_eq col v) cs))).
    split; [assumption|]. intros w. apply vget_value_counts. }
  split; [|split; [exact Hnum|split; [|exact Hcat]]].
  - intros name. split.
    + intros Hne. apply numeric_sget; [assumption|].
      destruct (in_dec string_dec name (numeric_names df)) as [H|H]; [assumption|].
      exfalso. apply Hne. apply Hn_out. assumption.
    + intros [xs Hx]. destruct (Hnum name xs Hx) as (d & -> & _). discriminate.
  - intros name. split.
    + intros Hne. apply categorical_sget; [assumption|].
      destruct (in_dec string_dec name (categorical_names df)) as [H|H]; [assumption|].
      exfalso. apply Hne. apply Hc_out. assumption.
    + intros [cs Hx]. destruct (Hcat name cs Hx) as (d & -> & _). discriminate.
Qed.



(** * Further properties of the operations *)

(** ** [age_splitter]: errors, the split column, splitting again *)

Lemma ltb_true_leb_false x t : PrimFloat.ltb x t = true -> PrimFloat.leb t x = false.
Proof.
  rewrite ltb_spec, leb_spec. unfold SFltb, SFleb.
  destruct (SFcompare (Prim2SF x) (Prim2SF t)) as [c|] eqn:E; [|discriminate].
  rewrite (FloatFacts.SFcompare_antisym _ _ _ E). destruct c; simpl; congruence.
Qed.

Lemma leb_true_ltb_false x t : PrimFloat.leb t x = true -> PrimFloat.ltb x t = false.
Proof.
  intros H. destruct (PrimFloat.ltb x t) eqn:E; [|reflexivity].
  rewrite (ltb_true_leb_false _ _ E) in H. discriminate.
Qed.

(** X1. On a table without the named column [age_splitter] raises
    [KeyError] with that name, whatever the threshold, and the table is
    left as it was. *)
Theorem age_splitter_missing_column (df : DataFrame) (col_name : string) (t : float) :
  sget col_name df = None ->
  age_splitter col_name t df = (Raise (KeyError col_name), df).
Proof.
  intros H. unfold age_splitter, bind, getitem, df_getitem. rewrite H. reflexivity.
Qed.

Lemma age_splitter_missing_column_witness :
  age_splitter "height" 18%float table_ages = (Raise (KeyError "height"), table_ages).
Proof. apply (age_splitter_missing_column table_ages "height" 18%float). reflexivity. Defined.

Lemma filter_split_length (xs : list float) t :
  PrimFloat.is_nan t = false ->
  List.length (filter (fun x => PrimFloat.ltb x t) xs)
  + List.length (filter (fun x => PrimFloat.leb t x) xs)
  = List.length (dropna xs).
Proof.
  intros Ht. unfold dropna. induction xs as [|x xs IH]; simpl; [reflexivity|].
  destruct (PrimFloat.is_nan x) eqn:Ex; simpl.
  - rewrite (FloatFacts.ltb_nan_l _ _ Ex), (FloatFacts.leb_nan_r _ _ Ex). assumption.
  - rewrite (FloatFacts.leb_negb_ltb _ _ Ex Ht).
    destruct (PrimFloat.ltb x t); simpl; lia.
Qed.

(** X2. For a float64 column and a threshold that is a number, the split
    column of the first output is the sub-list of the values below the
    threshold and that of the second output the sub-list of the values at
    or above it; their lengths add up to the number of non-missing values,
    so a row is lost exactly when its value is missing. *)
Theorem age_splitter_split_column (df : DataFrame) (col_name : string) (t : float)
        (xs : list float) :
  sget col_name df = Some (Float64 xs) ->
  PrimFloat.is_nan t = false ->
  exists df_below df_above_equal,
    fst (age_splitter col_name t df) = Ok (df_below, df_above_equal)
    /\ sget col_name df_below = Some (Float64 (filter (fun x => PrimFloat.ltb x t) xs))
    /\ sget col_name df_above_equal
       = Some (Float64 (filter (fun x => PrimFloat.leb t x) xs))
    /\ List.length (filter (fun x => PrimFloat.ltb x t) xs)
       + List.length (filter (fun x => PrimFloat.leb t x) xs)
       = List.length (dropna xs).
Proof.
  intros Hget Ht. do 2 eexists. split; [apply age_splitter_float; exact Hget|].
  rewrite !sget_df_take, Hget. simpl. rewrite !take_mask_filter.
  split; [reflexivity|]. split; [reflexivity|]. apply filter_split_length. assumption.
Qed.

Lemma age_splitter_split_column_witness :
  exists df_below df_above_equal,
    fst (age_splitter "age" 18%float table_ages) = Ok (df_below, df_above_equal)
    /\ sget "age" df_below = Some (Float64 [12]%float)
    /\ sget "age" df_above_equal = Some (Float64 [30; 18]%float).
Proof.
  destruct (age_splitter_split_column table_ages "age" 18%float [30; nan; 12; 18]%float
              eq_refl eq_refl) as (b & a & E & Hb & Ha & _).
  exists b, a. split; [exact E|]. split; [exact Hb | exact Ha].
Defined.

Lemma take_mask_all_true {A} (m : list bool) (l : list A) :
  List.length m = List.length l -> forallb (fun b => b) m = true -> take_mask m l = l.
Proof.
  revert l. induction m as [|b m IH]; intros [|x l] Hlen Hall; simpl in *; try congruence.
  apply andb_true_iff in Hall. destruct Hall as [-> Hall]. f_equal. apply IH; congruence.
Qed.

Lemma take_mask_all_false {A} (m : list bool) (l : list A) :
  forallb negb m = true -> take_mask m l = [].
Proof.
  revert l. induction m as [|b m IH]; intros [|x l] Hall; simpl in *; try reflexivity.
  apply andb_true_iff in Hall. destruct Hall as [Hb Hall].
  destruct b; [discriminate|]. apply IH. assumption.
Qed.

Lemma length_take_mask {A B} (m : list bool) (l : list A) (l' : list B) :
  List.length l = List.length l' ->
  List.length (take_mask m l) = List.length (take_mask m l').
Proof.
  revert l l'. induction m as [|b m IH]; intros [|x l] [|y l'] H; simpl in *;
    try congruence; try reflexivity.
  destruct b; simpl; [f_equal|]; apply IH; congruence.
Qed.

Lemma df_take_all_true m df :
  columns_have (List.length m) df -> forallb (fun b => b) m = true -> df_take m df = df.
Proof.
  intros Hn Hall. unfold df_take. rewrite <- (map_id df) at 2.
  apply map_ext_in. intros [n c] Hin. simpl. f_equal.
  unfold columns_have in Hn. rewrite Forall_forall in Hn. specialize (Hn _ Hin). simpl in Hn.
  destruct c as [l|l]; simpl in *; f_equal; apply take_mask_all_true; try assumption;
    rewrite ?length_map in Hn; congruence.
Qed.

Lemma df_take_all_false m df n c :
  forallb negb m = true -> In (n, c) (df_take m df) -> cells c = [].
Proof.
  intros Hall Hin. unfold df_take in Hin. apply in_map_iff in Hin.
  destruct Hin as ([n' c'] & E & _). inversion E; subst.
  rewrite cells_column_take. apply take_mask_all_false. assumption.
Qed.

Lemma columns_have_df_take n m df (xs : list float) :
  columns_have n df -> List.length xs = n ->
  columns_have (List.length (take_mask m xs)) (df_take m df).
Proof.
  unfold columns_have. rewrite !Forall_forall. intros H Hxs [k c] Hin.
  unfold df_take in Hin. apply in_map_iff in Hin. destruct Hin as ([k' c'] & E & Hin').
  inversion E; subst. simpl. rewrite cells_column_take.
  apply length_take_mask. specialize (H _ Hin'). simpl in H. congruence.
Qed.

Lemma columns_have_sget n df name c :
  columns_have n df -> sget name df = Some c -> List.length (cells c) = n.
Proof.
  unfold columns_have. rewrite Forall_forall. intros H Hget.
  apply sget_in in Hget. apply (H _ Hget).
Qed.

(** X3. Splitting is stable: on an aligned table with a float64 column,
    splitting the first output again at the same threshold gives that
    output back together with a table without rows, and splitting the
    second output again gives a table without rows together with that
    output. *)
Theorem age_splitter_again (df : DataFrame) (col_name : string) (t : float)
        (xs : list float) (df_below df_above_equal : DataFrame) :
  aligned df = true ->
  sget col_name df = Some (Float64 xs) ->
  fst (age_splitter col_name t df) = Ok (df_below, df_above_equal) ->
  (exists none,
      fst (age_splitter col_name t df_below) = Ok (df_below, none)
      /\ forall n c, In (n, c) none -> cells c = [])
  /\ (exists none,
        fst (age_splitter col_name t df_above_equal) = Ok (none, df_above_equal)
        /\ forall n c, In (n, c) none -> cells c = []).
Proof.
  intros Hal Hget Hsplit. apply aligned_columns_have in Hal.
  rewrite (age_splitter_float _ _ _ _ Hget) in Hsplit. inversion Hsplit; subst; clear Hsplit.
  assert (Hlen : List.length xs = nrows df).
  { rewrite <- (columns_have_sget _ _ _ _ Hal Hget). simpl. rewrite length_map. reflexivity. }
  set (lt := fun x => PrimFloat.ltb x t). set (ge := fun x => PrimFloat.leb t x).
  split.
  - assert (Hg : sget col_name (df_take (map lt xs) df) = Some (Float64 (filter lt xs))).
    { rewrite sget_df_take, Hget. simpl. rewrite take_mask_filter. reflexivity. }
    rewrite (age_splitter_float _ _ _ _ Hg). fold lt ge.
    eexists. split.
    + f_equal. f_equal. apply df_take_all_true.
      * rewrite length_map, <- (take_mask_filter lt xs).
        apply columns_have_df_take with (n := nrows df); assumption.
      * apply forallb_forall. intros b Hb. apply in_map_iff in Hb.
        destruct Hb as (x & <- & Hx). apply filter_In in Hx. apply Hx.
    + intros n c. apply df_take_all_false.
      apply forallb_forall. intros b Hb. apply in_map_iff in Hb.
      destruct Hb as (x & <- & Hx). apply filter_In in Hx. destruct Hx as [_ Hx].
      unfold ge. rewrite (ltb_true_leb_false _ _ Hx). reflexivity.
  - assert (Hg : sget col_name (df_take (map ge xs) df) = Some (Float64 (filter ge xs))).
    { rewrite sget_df_take, Hget. simpl. rewrite take_mask_filter. reflexivity. }
    rewrite (age_splitter_float _ _ _ _ Hg). fold lt ge.
    eexists. split.
    + f_equal. f_equal. apply df_take_all_true.
      * rewrite length_map, <- (take_mask_filter ge xs).
        apply columns_have_df_take with (n := nrows df); assumption.
      * apply forallb_forall. intros b Hb. apply in_map_iff in Hb.
        destruct Hb as (x & <- & Hx). apply filter_In in Hx. apply Hx.
    + intros n c. apply df_take_all_false.
      apply forallb_forall. intros b Hb. apply in_map_iff in Hb.
      destruct Hb as (x & <- & Hx). apply filter_In in Hx. destruct Hx as [_ Hx].
      unfold lt. rewrite (leb_true_ltb_false _ _ Hx). reflexivity.
Qed.

Lemma age_splitter_again_witness :
  exists df_below df_above_equal none,
    fst (age_splitter "age" 18%float table_ages) = Ok (df_below, df_above_equal)
    /\ fst (age_splitter "age" 18%float df_below) = Ok (df_below, none).
Proof.
  destruct (fst (age_splitter "age" 18%float table_ages)) as [[b a]|e] eqn:E;
    [|vm_compute in E; discriminate].
  destruct (age_splitter_again table_ages "age" 18%float [30; nan; 12; 18]%float b a
              eq_refl eq_refl E) as ((none & H & _) & _).
  exists b, a, none. split; [reflexivity | exact H].
Defined.

(** ** [effectSizer]: errors, what is left in the table, calling it twice *)

(** X4. When the category column is absent [effectSizer] raises
    [KeyError] with its name and the table is untouched.  When the
    category column has two distinct cleaned values but the numeric column
    is absent, it raises [KeyError] with the numeric column's name after
    the category column has been overwritten: the caller's table keeps the
    cleaned column although the call failed. *)
Theorem effectSizer_key_errors (repr_float : float -> string) (df : DataFrame)
        (num_col cat_col : string) :
  (sget cat_col df = None ->
   effectSizer repr_float num_col cat_col df = (Raise (KeyError cat_col), df))
  /\ (forall c,
        sget cat_col df = Some c ->
        List.length (unique (cleaned repr_float c)) = 2 ->
        sget num_col df = None ->
        effectSizer repr_float num_col cat_col df
        = (Raise (KeyError num_col), sset cat_col (cleaned repr_float c) df)).
Proof.
  split.
  - intros H. unfold effectSizer, bind, getitem, df_getitem. rewrite H. reflexivity.
  - intros c Hc Hlen Hnum.
    assert (Hne : num_col <> cat_col) by (intros ->; congruence).
    rewrite (surjective_pairing (effectSizer repr_float num_col cat_col df)).
    rewrite effectSizer_state, Hc. f_equal.
    unfold effectSizer.
    unfold bind at 1. unfold getitem at 1, df_getitem. rewrite Hc.
    unfold bind at 1. unfold lift at 1. rewrite str_strip_astype_str.
    unfold bind at 1. unfold setitem at 1.
    unfold bind at 1. unfold getitem at 1, df_getitem. rewrite sget_sset_same.
    rewrite column_dropna_cleaned, Hlen. cbn [Nat.eqb negb].
    unfold bind at 1. unfold group_of, bind, getitem, getrows, lift, df_getitem.
    rewrite sget_sset_same, sget_df_take, (sget_sset_other _ _ _ _ Hne), Hnum.
    reflexivity.
Qed.

Lemma effectSizer_key_errors_witness :
  effectSizer no_repr "val" "kind" table_padded = (Raise (KeyError "kind"), table_padded)
  /\ effectSizer no_repr "weight" "cat" table_padded
     = (Raise (KeyError "weight"),
        [("cat", Object [VStr "a"; VStr "b"; VStr "a"; VStr "b"]);
         ("val", Float64 [1; 2; 3; 4]%float)]).
Proof.
  split.
  - destruct (effectSizer_key_errors no_repr table_padded "val" "kind") as [H _].
    apply H. reflexivity.
  - destruct (effectSizer_key_errors no_repr table_padded "weight" "cat") as [_ H].
    apply (H (Object [VStr " a"; VStr "b"; VStr " a"; VStr "b"])); reflexivity.
Defined.

Lemma mapR_cell_numeric_raise l e : mapR cell_numeric l = Raise e -> e = TypeError.
Proof.
  induction l as [|v l IH]; simpl; [discriminate|].
  destruct v as [x|s|]; simpl; try (intros H; inversion H; reflexivity);
    destruct (mapR cell_numeric l); simpl; try discriminate;
    intros H; inversion H; subst; apply IH; reflexivity.
Qed.

Lemma to_numeric_raise c e : to_numeric c = Raise e -> e = TypeError.
Proof. destruct c; simpl; [discriminate | apply mapR_cell_numeric_raise]. Qed.

Lemma effectSizer_no_ValueError_on_two repr df num_col cat_col c :
  sget cat_col df = Some c ->
  List.length (unique (cleaned repr c)) = 2 ->
  forall col found, fst (effectSizer repr num_col cat_col df) <> Raise (ValueError col found).
Proof.
  intros Hc Hlen col found. unfold effectSizer.
  unfold bind at 1. unfold getitem at 1, df_getitem. rewrite Hc.
  unfold bind at 1. unfold lift at 1. rewrite str_strip_astype_str.
  unfold bind at 1. unfold setitem at 1.
  unfold bind at 1. unfold getitem at 1, df_getitem. rewrite sget_sset_same.
  rewrite column_dropna_cleaned, Hlen. cbn [Nat.eqb negb].
  unfold group_of, bind, getitem, getrows, lift, ret, df_getitem,
    series_mean, series_std, rbind.
  rewrite sget_sset_same.
  repeat (cbn beta iota; match goal with
         | |- context [match to_numeric ?x with _ => _ end] =>
             let E := fresh "E" in
             destruct (to_numeric x) eqn:E; [|apply to_numeric_raise in E; subst]
         | |- context [match sget ?k ?d with _ => _ end] => destruct (sget k d)
         | |- context [if ?b then _ else _] => destruct b
         end); simpl; discriminate.
Qed.

(** X5. With the category column present, [effectSizer] raises
    [ValueError] exactly when the column, once every cell (a missing one
    included) has been turned into stripped text, does not have exactly
    two distinct values.  The exception carries the column name and those
    distinct values, and the table already holds the cleaned column. *)
Theorem effectSizer_ValueError_iff (repr_float : float -> string) (df : DataFrame)
        (num_col cat_col : string) (c : column) :
  sget cat_col df = Some c ->
  ((exists col found,
       fst (effectSizer repr_float num_col cat_col df) = Raise (ValueError col found))
   <-> List.length (unique (cleaned repr_float c)) <> 2)
  /\ (List.length (unique (cleaned repr_float c)) <> 2 ->
      effectSizer repr_float num_col cat_col df
      = (Raise (ValueError cat_col (unique (cleaned repr_float c))),
         sset cat_col (cleaned repr_float c) df)).
Proof.
  intros Hc.
  assert (Hraise : List.length (unique (cleaned repr_float c)) <> 2 ->
            effectSizer repr_float num_col cat_col df
            = (Raise (ValueError cat_col (unique (cleaned repr_float c))),
               sset cat_col (cleaned repr_float c) df)).
  { intros Hlen. rewrite (surjective_pairing (effectSizer repr_float num_col cat_col df)).
    rewrite effectSizer_state, Hc.
    rewrite (effectSizer_ValueError _ _ _ _ _ Hc) by (apply Nat.eqb_neq; assumption).
    reflexivity. }
  split; [|exact Hraise]. split.
  - intros (col & found & E) Hlen.
    apply (effectSizer_no_ValueError_on_two _ _ num_col _ _ Hc Hlen col found). exact E.
  - intros Hlen. do 2 eexists. rewrite (Hraise Hlen). reflexivity.
Qed.

Lemma effectSizer_ValueError_iff_witness :
  effectSizer no_repr "val" "cat" table_two_and_missing
  = (Raise (ValueError "cat" [VStr "a"; VStr "b"; VStr "None"]),
     [("cat", Object [VStr "a"; VStr "a"; VStr "b"; VStr "b"; VStr "None"; VStr "None"]);
      ("val", Float64 [1; 2; 3; 4; 5; 6]%float)]).
Proof.
  destruct (effectSizer_ValueError_iff no_repr table_two_and_missing "val" "cat"
              (Object [VStr "a"; VStr "a"; VStr "b"; VStr "b"; VNone; VNone]) eq_refl)
    as [_ H].
  apply H. vm_compute. discriminate.
Defined.

(** *** Cleaning twice *)

Lemma lstrip_head s a r : lstrip s = String a r -> is_space a = false.
Proof.
  induction s as [|b s IH]; simpl; [discriminate|].
  destruct (is_space b) eqn:E; [assumption|]. intros H. inversion H; subst. assumption.
Qed.

Lemma rstrip_cons a s :
  rstrip (String a s) =
    match rstrip s with
    | EmptyString => if is_space a then EmptyString else String a EmptyString
    | String b r => String a (String b r)
    end.
Proof. reflexivity. Qed.

Lemma rstrip_idem s : rstrip (rstrip s) = rstrip s.
Proof.
  induction s as [|a s IH]; [reflexivity|]. rewrite rstrip_cons.
  destruct (rstrip s) as [|b r] eqn:E.
  - destruct (is_space a) eqn:Ea; [reflexivity|]. rewrite rstrip_cons. simpl.
    rewrite Ea. reflexivity.
  - rewrite rstrip_cons, IH. reflexivity.
Qed.

Lemma rstrip_head a r : is_space a = false -> exists r', rstrip (String a r) = String a r'.
Proof.
  intros Ha. rewrite rstrip_cons. destruct (rstrip r); [rewrite Ha|]; eauto.
Qed.

Lemma strip_idem s : strip (strip s) = strip s.
Proof.
  unfold strip. destruct (lstrip s) as [|a r] eqn:E; [reflexivity|].
  pose proof (lstrip_head _ _ _ E) as Ha.
  destruct (rstrip_head a r Ha) as [r' Er].
  rewrite Er. cbn [lstrip]. rewrite Ha, <- Er. apply rstrip_idem.
Qed.

Lemma cleaned_idem repr c : cleaned repr (cleaned repr c) = cleaned repr c.
Proof.
  unfold cleaned. cbn [cells]. rewrite map_map. f_equal. apply map_ext.
  intros v. cbn [str_value]. rewrite strip_idem. reflexivity.
Qed.

Lemma sset_sset {V} k (v w : V) d : sset k v (sset k w d) = sset k v d.
Proof.
  unfold sset. induction d as [|[k' v'] d IH]; simpl.
  - rewrite String.eqb_refl. reflexivity.
  - destruct (String.eqb k k') eqn:E; simpl.
    + rewrite String.eqb_refl. reflexivity.
    + rewrite E, IH. reflexivity.
Qed.

(** Past the assignment, [effectSizer] is one computation on the cleaned
    table. *)
Lemma effectSizer_after_cleaning repr num_col cat_col :
  exists rest : M float,
    forall df c, sget cat_col df = Some c ->
      effectSizer repr num_col cat_col df = rest (sset cat_col (cleaned repr c) df).
Proof.
  eexists. intros df c Hc. unfold effectSizer.
  unfold bind at 1. unfold getitem at 1, df_getitem. rewrite Hc.
  unfold bind at 1. unfold lift at 1. rewrite str_strip_astype_str.
  unfold bind at 1. unfold setitem at 1. reflexivity.
Qed.

(** X6. Calling [effectSizer] a second time, on the table the first call
    left behind, gives the same outcome (the same number or the same
    exception) and leaves that table as it is: the cleaning is done once
    and for all. *)
Theorem effectSizer_twice (repr_float : float -> string) (df : DataFrame)
        (num_col cat_col : string) :
  effectSizer repr_float num_col cat_col
              (snd (effectSizer repr_float num_col cat_col df))
  = effectSizer repr_float num_col cat_col df.
Proof.
  rewrite effectSizer_state. destruct (sget cat_col df) as [c|] eqn:Hc; [|reflexivity].
  destruct (effectSizer_after_cleaning repr_float num_col cat_col) as [rest Hrest].
  rewrite (Hrest df c Hc).
  rewrite (Hrest _ (cleaned repr_float c) (sget_sset_same _ _ _)).
  rewrite cleaned_idem, sset_sset. reflexivity.
Qed.

(** ** The two effect sizes *)






Lemma SFsub_diag x : SF64sub x x = S754_zero false \/ SF64sub x x = S754_nan.
Proof.
  unfold SF64sub, SFsub. destruct x as [s|s| |s m e]; simpl.
  - destruct s; auto.
  - destruct s; auto.
  - auto.
  - left. rewrite Z.sub_diag. reflexivity.
Qed.

Lemma SFdiv_zero_l s y : exists s', SF64div (S754_zero s) y = S754_zero s'
                                    \/ SF64div (S754_zero s) y = S754_nan.
Proof.
  destruct y as [t|t| |t m e]; simpl;
    first [eexists; left; reflexivity | exists false; right; reflexivity].
Qed.

(** X8. The effect size of a sample against itself is zero whenever it is
    defined: the only other outcome is NaN (an empty sample, a single
    observation, or an overflow). *)
Theorem cohenEffectSize_self (group : list float) :
  PrimFloat.is_nan (cohenEffectSize group group) = false ->
  F.is_zero (cohenEffectSize group group) = true.
Proof.
  intros Hdef.
  destruct (dropna group) as [|x l] eqn:E.
  { rewrite cohenEffectSize_empty in Hdef by (left; assumption). discriminate. }
  assert (N : dropna group <> []) by congruence.
  rewrite (cohenEffectSize_nonempty _ _ N N) in *.
  destruct (F.is_zero (pooled_std group group)); [reflexivity|].
  apply FloatFacts.not_nan_spec in Hdef. rewrite div_spec, sub_spec in Hdef.
  unfold F.is_zero. rewrite eqb_spec, div_spec, sub_spec.
  destruct (SFsub_diag (Prim2SF (mean group))) as [Hs|Hs]; rewrite Hs in *.
  - destruct (SFdiv_zero_l false (Prim2SF (pooled_std group group))) as [s' [H|H]].
    + rewrite H. reflexivity.
    + exfalso. apply Hdef. exact H.
  - exfalso. apply Hdef. reflexivity.
Qed.

Lemma cohenEffectSize_self_witness :
  F.is_zero (cohenEffectSize [1; 2; 4]%float [1; 2; 4]%float) = true.
Proof. apply (cohenEffectSize_self [1; 2; 4]%float). reflexivity. Defined.

(** ** [cohortCompare]: when it succeeds *)

Lemma foldR_total {A B} (f : A -> B -> result A) l :
  (forall a b, In b l -> exists a', f a b = Ok a') ->
  forall a, exists r, foldR f l a = Ok r.
Proof.
  induction l as [|b l IH]; intros H a; simpl; [eauto|].
  destruct (H a b (or_introl eq_refl)) as [a' ->]. simpl.
  apply IH. intros a0 b0 Hin. apply H. right. assumption.
Qed.

Lemma foldM_total {A B} (f : A -> B -> M A) l df :
  (forall a b, readonly (f a b)) ->
  (forall a b, In b l -> exists a', fst (f a b df) = Ok a') ->
  forall a, exists r, fst (foldM f l a df) = Ok r.
Proof.
  intros Hf. induction l as [|b l IH]; intros H a; [simpl; eauto|].
  rewrite foldM_cons_fst by assumption.
  destruct (H a b (or_introl eq_refl)) as [a' ->].
  apply IH. intros a0 b0 Hin. apply H. right. assumption.
Qed.

Lemma foldM_app_fst {A B} (f : A -> B -> M A) l1 l2 a df :
  (forall a b, readonly (f a b)) ->
  fst (foldM f (l1 ++ l2) a df) =
    match fst (foldM f l1 a df) with
    | Ok a' => fst (foldM f l2 a' df)
    | Raise e => Raise e
    end.
Proof.
  intros Hf. revert a. induction l1 as [|b l1 IH]; intros a; [reflexivity|].
  rewrite <- app_comm_cons, !foldM_cons_fst by assumption.
  destruct (fst (f a b df)); [apply IH | reflexivity].
Qed.

(** With distinct column names, the loop body cannot fail. *)
Lemma cohort_metric_total repr stats df c v m :
  NoDup (map fst df) ->
  exists metric,
    cohort_metric repr stats (numeric_names df) (categorical_names df) c v (df_take m df)
    = Ok metric.
Proof.
  intros Hnd. unfold cohort_metric.
  destruct (foldR_total
              (fun stats_dict num_col =>
                 (series <~ df_getitem num_col (df_take m df) ;;
                  d <~ series_stats stats series ;;
                  Ok (sset num_col d stats_dict))%result)
              (numeric_names df)) with (a := @nil (string * sdict float)) as [ns Hns].
  { intros a n Hin. apply numeric_sget in Hin; [|assumption]. destruct Hin as [xs Hx].
    unfold df_getitem. rewrite sget_df_take, Hx. simpl.
    destruct (series_stats_float stats (take_mask m xs)) as (d & -> & _). simpl. eauto. }
  destruct (foldR_total
              (fun counts cat_col =>
                 (series <~ df_getitem cat_col (df_take m df) ;;
                  Ok (sset cat_col (value_counts series) counts))%result)
              (categorical_names df)) with (a := @nil (string * dict value nat))
    as [cnt Hcnt].
  { intros a n Hin. apply categorical_sget in Hin; [|assumption]. destruct Hin as [cs Hx].
    unfold df_getitem. rewrite sget_df_take, Hx. simpl. eauto. }
  unfold numeric_stats, categorical_counts. rewrite Hns, Hcnt. simpl. eauto.
Qed.

Lemma cohort_column_total repr stats df c a :
  NoDup (map fst df) -> sget c df <> None ->
  exists a', fst (cohort_column repr stats (numeric_names df) (categorical_names df) a c df)
             = Ok a'.
Proof.
  intros Hnd Hc. rewrite cohort_column_fst.
  destruct (sget c df) as [col|] eqn:Ecol; [|congruence].
  apply foldM_total; [intros; apply readonly_cohort_step|].
  intros a0 v _. rewrite cohort_step_fst, Ecol.
  destruct (cohort_metric_total repr stats df c v (series_eq col v) Hnd) as [m ->]. eauto.
Qed.

(** X9. On a table with distinct column names, [cohortCompare] returns a
    result exactly when every grouping column is a column of the table;
    otherwise it raises [KeyError] with the name of the first grouping
    column that is not, and returns nothing for the columns before it. *)
Theorem cohortCompare_succeeds_iff (repr_float : float -> string) (df : DataFrame)
        (cohorts stats : list string) :
  NoDup (map fst df) ->
  ((exists results, fst (cohortCompare repr_float cohorts stats df) = Ok results)
   <-> forall c, In c cohorts -> sget c df <> None)
  /\ (forall before c after,
        cohorts = before ++ c :: after ->
        (forall c', In c' before -> sget c' df <> None) ->
        sget c df = None ->
        fst (cohortCompare repr_float cohorts stats df) = Raise (KeyError c)).
Proof.
  intros Hnd.
  assert (Hro := readonly_cohort_column repr_float stats
                   (numeric_names df) (categorical_names df)).
  assert (Hfirst : forall before c after,
             cohorts = before ++ c :: after ->
             (forall c', In c' before -> sget c' df <> None) ->
             sget c df = None ->
             fst (cohortCompare repr_float cohorts stats df) = Raise (KeyError c)).
  { intros before c after -> Hbefore Hc.
    rewrite cohortCompare_fst, foldM_app_fst by assumption.
    destruct (foldM_total _ before df Hro) with (a := @nil (string * CohortMetric))
      as [a' ->].
    { intros a b Hin. apply cohort_column_total; auto. }
    rewrite foldM_cons_fst by assumption. rewrite cohort_column_fst, Hc. reflexivity. }
  split; [|exact Hfirst]. split.
  - intros [results Hr] c Hin Hc.
    assert (Hsplit : exists before c0 after,
               cohorts = before ++ c0 :: after
               /\ (forall c', In c' before -> sget c' df <> None)
               /\ sget c0 df = None).
    { clear Hr Hfirst. induction cohorts as [|c1 cs IH]; [destruct Hin|].
      destruct (sget c1 df) as [col|] eqn:E1.
      - destruct Hin as [->|Hin]; [congruence|].
        destruct (IH Hin) as (before & c0 & after & -> & Hb & H0).
        exists (c1 :: before), c0, after. split; [reflexivity|]. split; [|assumption].
        intros c' [<-|Hc']; [congruence | auto].
      - exists [], c1, cs. split; [reflexivity|]. split; [intros c' []|assumption]. }
    destruct Hsplit as (before & c0 & after & E & Hb & H0).
    rewrite (Hfirst before c0 after E Hb H0) in Hr. discriminate.
  - intros Hall. rewrite cohortCompare_fst. apply foldM_total; [assumption|].
    intros a c Hin. apply cohort_column_total; auto.
Qed.

Lemma cohortCompare_succeeds_iff_witness :
  fst (cohortCompare no_repr ["group"; "region"; "val"] default_statistics example_table)
  = Raise (KeyError "region").
Proof.
  assert (Hnd : NoDup (map fst example_table)).
  { repeat constructor; simpl; intuition discriminate. }
  destruct (cohortCompare_succeeds_iff no_repr example_table ["group"; "region"; "val"]
              default_statistics Hnd) as [_ H].
  apply (H ["group"] "region" ["val"]); [reflexivity| |reflexivity].
  intros c' [<-|[]]. discriminate.
Defined.

(** ** [cohortCompare]: colliding labels *)

Lemma foldM_map_fst {A B C} (f : A -> B -> M A) (g : C -> B) l a df :
  foldM f (map g l) a df = foldM (fun a c => f a (g c)) l a df.
Proof.
  revert a df. induction l as [|c l IH]; intros a df; [reflexivity|].
  simpl. unfold bind. destruct (f a (g c) df) as [[a'|e] df']; [apply IH | reflexivity].
Qed.

(** The two nested loops are one loop over the cohorts in processing
    order. *)
Lemma cohortCompare_flat repr cohorts stats df results :
  fst (cohortCompare repr cohorts stats df) = Ok results ->
  fst (foldM (fun a cv => cohort_step repr stats (numeric_names df) (categorical_names df)
                            (fst cv) a (snd cv))
             (cohort_pairs df cohorts) [] df) = Ok results.
Proof.
  rewrite cohortCompare_fst. generalize (@nil (string * CohortMetric)) as a.
  induction cohorts as [|c cs IH]; intros a Hr; [exact Hr|].
  rewrite foldM_cons_fst in Hr by (intros; apply readonly_cohort_column).
  rewrite cohort_column_fst in Hr.
  destruct (sget c df) as [col|] eqn:Ecol; [|discriminate].
  destruct (fst (foldM (cohort_step repr stats (numeric_names df) (categorical_names df) c)
                       (unique col) a df)) as [a'|e] eqn:Ea; [|discriminate].
  unfold cohort_pairs. cbn [flat_map]. rewrite Ecol. fold (cohort_pairs df cs).
  rewrite foldM_app_fst by (intros; apply readonly_cohort_step).
  assert (Em : fst (foldM (fun a cv => cohort_step repr stats (numeric_names df)
                                         (categorical_names df) (fst cv) a (snd cv))
                          (map (pair c) (unique col)) a df) = Ok a').
  { rewrite foldM_map_fst. exact Ea. }
  rewrite Em. apply IH. exact Hr.
Qed.

Lemma foldM_sset_keeps {B V} (f : sdict V -> B -> M (sdict V)) (key : B -> string)
      (g : B -> result V) l df k :
  (forall a b, readonly (f a b)) ->
  (forall a b, fst (f a b df) = match g b with
                                | Ok m => Ok (sset (key b) m a)
                                | Raise e => Raise e
                                end) ->
  (forall b, In b l -> key b <> k) ->
  forall a r, fst (foldM f l a df) = Ok r -> sget k r = sget k a.
Proof.
  intros Hro Hf. induction l as [|b l IH]; intros Hk a r Hr.
  - simpl in Hr. inversion Hr. reflexivity.
  - rewrite foldM_cons_fst, Hf in Hr by assumption.
    destruct (g b) as [m|e]; [|discriminate].
    rewrite (IH (fun b0 Hin => Hk b0 (or_intror Hin)) _ _ Hr).
    apply sget_sset_other. intros E. apply (Hk b (or_introl eq_refl)). auto.
Qed.

(** In a loop of assignments [d[key b] = g b], the entry under a key is the
    value of the last element with that key. *)
Lemma foldM_sset_last {B V} (f : sdict V -> B -> M (sdict V)) (key : B -> string)
      (g : B -> result V) before b after df :
  (forall a b, readonly (f a b)) ->
  (forall a b, fst (f a b df) = match g b with
                                | Ok m => Ok (sset (key b) m a)
                                | Raise e => Raise e
                                end) ->
  (forall b', In b' after -> key b' <> key b) ->
  forall a r, fst (foldM f (before ++ b :: after) a df) = Ok r ->
    exists m, g b = Ok m /\ sget (key b) r = Some m.
Proof.
  intros Hro Hf Hafter. induction before as [|b0 before IH]; intros a r Hr.
  - cbn [app] in Hr. rewrite foldM_cons_fst, Hf in Hr by assumption.
    destruct (g b) as [m|e]; [|discriminate].
    exists m. split; [reflexivity|].
    rewrite (foldM_sset_keeps f key g after df (key b) Hro Hf Hafter _ _ Hr).
    apply sget_sset_same.
  - rewrite <- app_comm_cons, foldM_cons_fst in Hr by assumption.
    destruct (fst (f a b0 df)) as [a'|e]; [|discriminate].
    apply (IH a' r Hr).
Qed.

(** The entry under a cohort's label, when no later cohort shares it. *)
Lemma cohortCompare_entry_of_last (repr_float : float -> string) (df : DataFrame)
        (cohorts stats : list string) (results : sdict CohortMetric)
        (before after : list (string * value)) (c : string) (v : value) :
  fst (cohortCompare repr_float cohorts stats df) = Ok results ->
  cohort_pairs df cohorts = before ++ (c, v) :: after ->
  (forall c' v', In (c', v') after -> label repr_float c' v' <> label repr_float c v) ->
  exists col m,
    sget c df = Some col
    /\ cohort_metric repr_float stats (numeric_names df) (categorical_names df) c v
         (df_take (series_eq col v) df) = Ok m
    /\ sget (label repr_float c v) results = Some m.
Proof.
  intros Hr Hpairs Hafter. apply cohortCompare_flat in Hr. rewrite Hpairs in Hr.
  destruct (foldM_sset_last
              (fun a cv => cohort_step repr_float stats (numeric_names df)
                             (categorical_names df) (fst cv) a (snd cv))
              (fun cv => label repr_float (fst cv) (snd cv))
              (fun cv => match sget (fst cv) df with
                         | None => Raise (KeyError (fst cv))
                         | Some col =>
                             cohort_metric repr_float stats (numeric_names df)
                               (categorical_names df) (fst cv) (snd cv)
                               (df_take (series_eq col (snd cv)) df)
                         end)
              before (c, v) after df) with (a := @nil (string * CohortMetric)) (r := results)
    as (m & Hg & Hget).
  - intros a b. apply readonly_cohort_step.
  - intros a [c0 v0]. cbn [fst snd]. rewrite cohort_step_fst.
    destruct (sget c0 df); [|reflexivity].
    destruct (cohort_metric _ _ _ _ _ _ _); reflexivity.
  - intros [c' v'] Hin. cbn [fst snd]. apply Hafter. assumption.
  - exact Hr.
  - cbn [fst snd] in Hg, Hget.
    destruct (sget c df) as [col|]; [|discriminate]. exists col, m. auto.
Qed.

(** X10. When several cohorts get the same label, the entry kept under
    that label is the metric of the one processed last: for a cohort that
    no later cohort shares its label with, the result holds, under its
    label, the metric computed from its own rows. *)
Theorem cohortCompare_last_label_wins (repr_float : float -> string) (df : DataFrame)
        (cohorts stats : list string) (results : sdict CohortMetric)
        (before after : list (string * value)) (c : string) (v : value) :
  fst (cohortCompare repr_float cohorts stats df) = Ok results ->
  cohort_pairs df cohorts = before ++ (c, v) :: after ->
  (forall c' v', In (c', v') after -> label repr_float c' v' <> label repr_float c v) ->
  exists col m,
    sget c df = Some col
    /\ cohort_metric repr_float stats (numeric_names df) (categorical_names df) c v
         (df_take (series_eq col v) df) = Ok m
    /\ sget (label repr_float c v) results = Some m.
Proof. apply cohortCompare_entry_of_last. Qed.

Lemma cohortCompare_last_label_wins_witness :
  exists results m,
    fst (cohortCompare no_repr ["a"; "a=b"] default_statistics table_collision) = Ok results
    /\ map fst results = ["a=b=c"; "a=b=d"]
    /\ sget "a=b=c" results = Some m
    /\ category_count results "a=b=c" "a=b" (VStr "c") = Some 1
    /\ category_count results "a=b=c" "a=b" (VStr "d") = None.
Proof.
  destruct (fst (cohortCompare no_repr ["a"; "a=b"] default_statistics table_collision))
    as [results|e] eqn:Hr; [|vm_compute in Hr; discriminate].
  destruct (cohortCompare_last_label_wins no_repr table_collision ["a"; "a=b"]
              default_statistics results [("a", VStr "b=c")] [("a=b", VStr "d")]
              "a=b" (VStr "c") Hr eq_refl) as (col & m & _ & _ & Hget).
  { intros c' v' [E|[]]. inversion E; subst. vm_compute. discriminate. }
  exists results, m. split; [reflexivity|].
  vm_compute in Hr. inversion Hr; subst results; clear Hr.
  repeat split; try reflexivity. exact Hget.
Defined.

(** ** [cohortCompare]: the cohort of a missing value *)

Lemma holds_statistics_nil stats d s x :
  holds_statistics stats [] d -> sget s d = Some x -> PrimFloat.is_nan x = true.
Proof.
  intros (Hkeys & Hmean & Hmed & Hstd & Hmin & Hmax) Hget.
  assert (Hin : In s (filter (fun s => mem s stats) default_statistics)).
  { rewrite <- Hkeys. apply (sget_in_keys _ _ _ Hget). }
  apply filter_In in Hin. destruct Hin as [Hin Hm].
  destruct Hin as [<-|[<-|[<-|[<-|[<-|[]]]]]].
  - rewrite (Hmean Hm) in Hget. inversion Hget. reflexivity.
  - rewrite (Hmed Hm) in Hget. inversion Hget. reflexivity.
  - rewrite (Hstd Hm) in Hget. inversion Hget. reflexivity.
  - rewrite (Hmin Hm) in Hget. inversion Hget. reflexivity.
  - rewrite (Hmax Hm) in Hget. inversion Hget. reflexivity.
Qed.

(** X11. The cohort of a missing value of a grouping column is empty, and
    its entry (when no later cohort takes its label) says so: every
    statistic stored for every numeric column is NaN and the counts of
    every other column are empty.  No exception is raised for it. *)
Theorem cohortCompare_missing_value_entry (repr_float : float -> string) (df : DataFrame)
        (cohorts stats : list string) (results : sdict CohortMetric)
        (before after : list (string * value)) (c : string) (v : value) :
  NoDup (map fst df) ->
  fst (cohortCompare repr_float cohorts stats df) = Ok results ->
  cohort_pairs df cohorts = before ++ (c, v) :: after ->
  (forall c' v', In (c', v') after -> label repr_float c' v' <> label repr_float c v) ->
  isna v = true ->
  exists m ns cnt,
    sget (label repr_float c v) results = Some m
    /\ statistics m = batch_statistics ns cnt
    /\ (forall name xs, sget name df = Some (Float64 xs) ->
        exists d, sget name ns = Some d
          /\ forall s x, sget s d = Some x -> PrimFloat.is_nan x = true)
    /\ (forall name cs, sget name df = Some (Object cs) ->
        exists d, sget name cnt = Some d /\ forall w, vget w d = None).
Proof.
  intros Hnd Hr Hpairs Hafter Hv.
  destruct (cohortCompare_entry_of_last _ _ _ _ _ _ _ _ _ Hr Hpairs Hafter)
    as (col & m & Hcol & Hm & Hget).
  destruct (cohort_metric_statistics _ _ _ _ _ _ _ Hnd Hm)
    as (ns & cnt & Es & _ & Hnum & _ & Hcat).
  exists m, ns, cnt. split; [assumption|]. split; [assumption|].
  pose proof (series_eq_missing col v Hv) as Hmask. split.
  - intros name xs Hx. destruct (Hnum name xs Hx) as (d & Hd & Hh).
    rewrite (take_mask_all_false _ xs Hmask) in Hh.
    exists d. split; [assumption|]. intros s x Hsx. apply (holds_statistics_nil _ _ _ _ Hh Hsx).
  - intros name cs Hx. destruct (Hcat name cs Hx) as (d & Hd & Hw).
    rewrite (take_mask_all_false _ cs Hmask) in Hw.
    exists d. split; [assumption|]. intros w. rewrite Hw. reflexivity.
Qed.

Lemma cohortCompare_missing_value_entry_witness :
  exists results,
    fst (cohortCompare no_repr ["group"] default_statistics table_with_missing) = Ok results
    /\ (exists x, numeric_stat results "group=None" "val" "mean" = Some x
                  /\ PrimFloat.is_nan x = true)
    /\ category_count results "group=None" "group" (VStr "x") = None.
Proof.
  destruct (fst (cohortCompare no_repr ["group"] default_statistics table_with_missing))
    as [results|e] eqn:Hr; [|vm_compute in Hr; discriminate].
  assert (Hnd : NoDup (map fst table_with_missing)).
  { repeat constructor; simpl; intuition discriminate. }
  destruct (cohortCompare_missing_value_entry no_repr table_with_missing ["group"]
              default_statistics results [("group", VStr "x")] [] "group" VNone
              Hnd Hr eq_refl) as (m & ns & cnt & Hget & Es & Hnum & Hcat).
  { intros c' v' []. }
  { reflexivity. }
  destruct (Hnum "val" [1; 2; 3]%float eq_refl) as (d & Hd & Hnan).
  destruct (Hcat "group" [VStr "x"; VNone; VStr "x"] eq_refl) as (d' & Hd' & Hnone).
  exists results. split; [reflexivity|].
  change (label no_repr "group" VNone) with "group=None" in Hget.
  unfold numeric_stat, category_count. rewrite Hget, Es. cbn [sget dict_get String.eqb
    Ascii.eqb Bool.eqb batch_statistics]. rewrite Hd, Hd'. split.
  - destruct (sget "mean" d) as [x|] eqn:Ex.
    + exists x. split; [reflexivity | apply (Hnan "mean" x Ex)].
    + exfalso. vm_compute in Hr. inversion Hr; subst results; clear Hr.
      vm_compute in Hget. inversion Hget; subst m; clear Hget.
      vm_compute in Es. inversion Es; subst ns cnt.
      vm_compute in Hd. inversion Hd; subst d. vm_compute in Ex. discriminate.
  - apply Hnone.
Defined.

(** ** [cohortCompare]: the selection of statistics *)

Lemma foldM_ext {A B} (f g : A -> B -> M A) l :
  (forall a b df, f a b df = g a b df) ->
  forall a df, foldM f l a df = foldM g l a df.
Proof.
  intros H. induction l as [|b l IH]; intros a df; [reflexivity|].
  simpl. unfold bind. rewrite H. destruct (g a b df) as [[a'|e] df']; [apply IH | reflexivity].
Qed.

Lemma series_stats_selection stats stats' series :
  (forall s, In s default_statistics -> mem s stats = mem s stats') ->
  series_stats stats series = series_stats stats' series.
Proof.
  intros H. unfold series_stats, stat_entry.
  rewrite !(H "mean"), !(H "median"), !(H "std"), !(H "min"), !(H "max");
    try reflexivity; unfold default_statistics; simpl; auto 10.
Qed.

(** X12. The list of requested statistics matters only through which of
    the five names "mean", "median", "std", "min", "max" it contains:
    order, repetitions and any other name in it change nothing in what
    [cohortCompare] returns. *)
Theorem cohortCompare_statistics_selection (repr_float : float -> string) (df : DataFrame)
        (cohorts stats stats' : list string) :
  (forall s, In s default_statistics -> mem s stats = mem s stats') ->
  cohortCompare repr_float cohorts stats df = cohortCompare repr_float cohorts stats' df.
Proof.
  intros H. unfold cohortCompare, bind, select_dtypes_number, columns_of.
  apply foldM_ext. intros a c d. unfold cohort_column, bind.
  destruct (getitem c d) as [[s|e] d']; [|reflexivity].
  apply foldM_ext. intros a0 v d0. unfold cohort_step, bind.
  destruct (getitem c d0) as [[s0|e0] d1]; [|reflexivity].
  destruct (getrows (series_eq s0 v) d1) as [[cdf|e1] d2]; [|reflexivity].
  unfold cohort_metric, numeric_stats.
  rewrite (foldR_ext _
             (fun stats_dict num_col =>
                (series <~ df_getitem num_col cdf ;;
                 d3 <~ series_stats stats' series ;;
                 Ok (sset num_col d3 stats_dict))%result)); [reflexivity|].
  intros a1 b1. destruct (df_getitem b1 cdf) as [series|e2]; [|reflexivity]. simpl.
  rewrite (series_stats_selection stats stats' series H). reflexivity.
Qed.

Lemma cohortCompare_statistics_selection_witness :
  cohortCompare no_repr ["group"] ["max"; "mode"; "mean"; "max"] example_table
  = cohortCompare no_repr ["group"] ["mean"; "max"] example_table.
Proof.
  apply (cohortCompare_statistics_selection no_repr example_table ["group"]
           ["max"; "mode"; "mean"; "max"] ["mean"; "max"]).
  intros s [<-|[<-|[<-|[<-|[<-|[]]]]]]; reflexivity.
Defined.

(** ** Metrics of the two kinds *)

(** X13. A metric returned by [cohortCompare] cannot be compared: its
    first slot still holds [None], so [compare_to] on it raises
    [AttributeError] whatever the other metric is. *)
Theorem compare_to_batch_metric_raises (repr_float : float -> string) (df : DataFrame)
        (cohorts stats : list string) (results : sdict CohortMetric)
        (lbl : string) (m other : CohortMetric) :
  fst (cohortCompare repr_float cohorts stats df) = Ok results ->
  sget lbl results = Some m ->
  Metric.compare_to m other = Raise AttributeError.
Proof.
  intros Hr Hget.
  destruct (cohortCompare_entries _ _ _ _ _ Hr _ _ Hget) as (c & col & v & _ & _ & _ & _ & Em).
  destruct (cohort_metric_ok _ _ _ _ _ _ _ _ Em) as (ns & cnt & _ & _ & ->).
  reflexivity.
Qed.

Lemma compare_to_batch_metric_raises_witness :
  exists results m,
    fst (cohortCompare no_repr ["group"] default_statistics example_table) = Ok results
    /\ sget "group=x" results = Some m
    /\ Metric.compare_to m m = Raise AttributeError.
Proof.
  destruct (fst (cohortCompare no_repr ["group"] default_statistics example_table))
    as [results|e] eqn:Hr; [|vm_compute in Hr; discriminate].
  destruct (sget "group=x" results) as [m|] eqn:Hget;
    [|vm_compute in Hr; inversion Hr; subst results; vm_compute in Hget; discriminate].
  exists results, m. split; [reflexivity|]. split; [exact Hget|].
  apply (compare_to_batch_metric_raises no_repr example_table ["group"] default_statistics
           results "group=x" m m Hr Hget).
Defined.

(** X14. Comparison is not symmetric: a metric with its five slots set,
    compared to a freshly constructed one, is simply unequal, while the
    freshly constructed one compared to it raises [AttributeError]. *)
Theorem compare_to_not_symmetric (n n' : string) (a1 a2 a3 a4 a5 : list float) :
  Metric.compare_to (five_slot n a1 a2 a3 a4 a5) (Metric.init n') = Ok false
  /\ Metric.compare_to (Metric.init n') (five_slot n a1 a2 a3 a4 a5) = Raise AttributeError.
Proof. split; reflexivity. Qed.

Lemma sset_comm {V} k k' (v v' : V) d :
  k <> k' -> sget k d <> None -> sget k' d <> None ->
  sset k v (sset k' v' d) = sset k' v' (sset k v d).
Proof.
  intros Hne. unfold sget, sset. induction d as [|[k0 v0] d IH]; simpl; [congruence|].
  assert (Hkk' : String.eqb k k' = false) by (apply String.eqb_neq; assumption).
  assert (Hk'k : String.eqb k' k = false) by (apply String.eqb_neq; congruence).
  intros Hk Hk'.
  destruct (String.eqb k k0) eqn:E, (String.eqb k' k0) eqn:E'; simpl.
  - apply String.eqb_eq in E, E'. congruence.
  - rewrite E, Hk'k. reflexivity.
  - rewrite E', Hkk'. reflexivity.
  - rewrite E, E'. f_equal. apply IH; assumption.
Qed.

(** X15. A setter writes its own slot and nothing else: after
    [self.statistics[key] = v] the slot [key] holds [v], every other slot
    and the name are as before, and when the key was already there (as the
    five slots are from construction on) the keys and their order are
    unchanged; setting the same slot twice keeps the last value, and
    setters of two different existing slots can be applied in either
    order.  The five setters are this assignment for "mean", "median",
    "std", "min" and "max". *)
Theorem setters_write_one_slot (key : string) (v w : pyval) (self : CohortMetric) :
  sget key (statistics (Metric.set_statistic key v self)) = Some v
  /\ cohort_name (Metric.set_statistic key v self) = cohort_name self
  /\ (forall other, other <> key ->
      sget other (statistics (Metric.set_statistic key v self))
      = sget other (statistics self))
  /\ (sget key (statistics self) <> None ->
      map fst (statistics (Metric.set_statistic key v self)) = map fst (statistics self))
  /\ Metric.set_statistic key v (Metric.set_statistic key w self)
     = Metric.set_statistic key v self
  /\ (forall key', key <> key' ->
      sget key (statistics self) <> None -> sget key' (statistics self) <> None ->
      Metric.set_statistic key v (Metric.set_statistic key' w self)
      = Metric.set_statistic key' w (Metric.set_statistic key v self))
  /\ (Metric.setMean v self = Metric.set_statistic "mean" v self
      /\ Metric.setMedian v self = Metric.set_statistic "median" v self
      /\ Metric.setStd v self = Metric.set_statistic "std" v self
      /\ Metric.setMin v self = Metric.set_statistic "min" v self
      /\ Metric.setMax v self = Metric.set_statistic "max" v self).
Proof.
  unfold Metric.set_statistic. cbn [statistics cohort_name].
  split; [apply sget_sset_same|]. split; [reflexivity|].
  split; [intros other Hne; apply sget_sset_other; assumption|].
  split.
  { intros Hk. destruct (sget key (statistics self)) as [x|] eqn:E; [|congruence].
    apply (sset_keys_present _ _ _ _ E). }
  split; [rewrite sset_sset; reflexivity|].
  split; [|repeat split].
  intros key' Hne Hk Hk'. f_equal. apply sset_comm; assumption.
Qed.

Lemma setters_write_one_slot_witness :
  Metric.setStd (PSeries [2%float]) (Metric.setMean (PSeries [1%float]) (Metric.init "a"))
  = Metric.setMean (PSeries [1%float]) (Metric.setStd (PSeries [2%float]) (Metric.init "a"))
  /\ map fst (statistics (Metric.setStd (PSeries [2%float]) (Metric.init "a")))
     = ["mean"; "median"; "std"; "min"; "max"].
Proof.
  destruct (setters_write_one_slot "std" (PSeries [2%float]) (PSeries [1%float])
              (Metric.init "a")) as (_ & _ & _ & Hkeys & _ & Hcomm & _).
  split.
  - apply (Hcomm "mean"); discriminate.
  - apply Hkeys. discriminate.
Defined.

(** ** [CohortMetric.__str__] *)

Lemma string_app_assoc (a b c : string) : ((a ++ b) ++ c = a ++ (b ++ c))%string.
Proof. induction a as [|x a IH]; simpl; [reflexivity | rewrite IH; reflexivity]. Qed.

(** X16. Printing a metric returned by [cohortCompare] gives the header
    with the cohort's label, then the five placeholder slots, each shown
    as "None", and only then the "numeric_stats" and "counts" blocks. *)
Theorem to_str_batch_metric (repr_float : float -> string) (str_data : pyval -> string)
        (df : DataFrame) (cohorts stats : list string) (results : sdict CohortMetric)
        (lbl : string) (m : CohortMetric) :
  fst (cohortCompare repr_float cohorts stats df) = Ok results ->
  sget lbl results = Some m ->
  exists ns cnt,
    to_str str_data m
    = (nl ++ "Cohort: " ++ lbl ++ nl
       ++ stat_block "mean" "None" ++ stat_block "median" "None"
       ++ stat_block "std" "None" ++ stat_block "min" "None" ++ stat_block "max" "None"
       ++ stat_block "numeric_stats" (str_data (PNumericStats ns))
       ++ stat_block "counts" (str_data (PCounts cnt)))%string.
Proof.
  intros Hr Hget.
  destruct (cohortCompare_entries _ _ _ _ _ Hr _ _ Hget)
    as (c & col & v & _ & _ & _ & -> & Em).
  destruct (cohort_metric_ok _ _ _ _ _ _ _ _ Em) as (ns & cnt & _ & _ & ->).
  exists ns, cnt. unfold to_str, batch_statistics.
  cbn [statistics cohort_name fold_left fst snd str_pyval].
  rewrite !string_app_assoc. reflexivity.
Qed.

Lemma to_str_batch_metric_witness :
  exists results m ns cnt,
    fst (cohortCompare no_repr ["g"] default_statistics table_counts) = Ok results
    /\ sget "g=k" results = Some m
    /\ to_str (fun _ => "...") m
       = (nl ++ "Cohort: g=k" ++ nl
          ++ stat_block "mean" "None" ++ stat_block "median" "None"
          ++ stat_block "std" "None" ++ stat_block "min" "None" ++ stat_block "max" "None"
          ++ stat_block "numeric_stats" ((fun _ => "...") (PNumericStats ns))
          ++ stat_block "counts" ((fun _ => "...") (PCounts cnt)))%string.
Proof.
  destruct (fst (cohortCompare no_repr ["g"] default_statistics table_counts))
    as [results|e] eqn:Hr; [|vm_compute in Hr; discriminate].
  destruct (sget "g=k" results) as [m|] eqn:Hget;
    [|vm_compute in Hr; inversion Hr; subst results; vm_compute in Hget; discriminate].
  destruct (to_str_batch_metric no_repr (fun _ => "...") table_counts ["g"]
              default_statistics results "g=k" m Hr Hget) as (ns & cnt & H).
  exists results, m, ns, cnt. split; [reflexivity|]. split; [exact Hget | exact H].
Defined.
